(** * Thies_to_Zarr: drop-size-distribution functions of [Functions.py]

    A shallow embedding of [calculate_nd], [calculate_parameters_dsd],
    [get_events], [diam_vel_classes] and [atlas_ulbrich_velocity], with the
    properties of the specification stated over it, and of
    [Annual_Precipitation_Cycle] and [Annual_Precipitation_rain_gauge].

    Number model.  numpy's [float64] is IEEE 754 binary64, which is Rocq's
    primitive [float]: every literal below is the double Python reads from
    the same decimal, and [+], [-], [*], [/] round as the hardware does.
    Universal statements go through the library's specification of the
    primitive operations ([Prim2SF], [mul_spec], [div_spec], ...); those on
    the order of quotients and products follow its rounding
    ([binary_round_aux]) on the real number that is rounded.
    Two operations of the source have no binary64 counterpart in the
    library: the C [pow] behind [**], which is a parameter [fpow] of the
    bulk integrator and of the fall speed, and the order in which numpy
    adds the terms of a sum (pairwise).  [nansum] adds from the left, which
    gives numpy's result up to the rounding of finite terms: the statements
    on it are about zeros, NaN, infinities and signs, and those on equal
    sums have the same terms in the same places on both sides.  Where a
    statement depends on the value of a sum, the sum is a parameter
    ([get_events_with]).

    Array model.  An xarray [DataArray] along one dimension is a list of
    (coordinate label, value) pairs; [diameter] and [velocity] are
    coordinate arrays, whose labels are their own values.  Binary
    operations align their operands by label and keep the labels both
    have (xarray's default inner join), in the order of the left operand;
    the labels along a dimension are distinct.  The count matrix is that
    of one time step, a list of rows by diameter, each a list of cells by
    velocity; every operation of [calculate_nd] is pointwise in time.
    [calculate_nd_array] is the same function on a count matrix as xarray
    holds it, with or without coordinate labels along a dimension, and
    with the errors of the alignment.
    Timestamps ([datetime64[ns]]) are integers, in nanoseconds; the
    statements that depend on it keep them where 64-bit differences do
    not wrap. *)

From Stdlib Require Import ZArith List Bool Lia Floats Reals Lra Sorted.
Import ListNotations.

Set Warnings "-inexact-float".

(** ** Exceptions and results *)

Inductive exn : Set :=
| IndexError       (* [diameter[0]] on an empty dimension *)
| AlignmentError.  (* the [ValueError] of xarray's alignment of two operands *)

Inductive result (A : Type) : Type :=
| Ok (a : A)
| Raise (e : exn).

Arguments Ok {A} a.
Arguments Raise {A} e.

Definition bind {A B : Type} (r : result A) (k : A -> result B) : result B :=
  match r with
  | Ok a => k a
  | Raise e => Raise e
  end.

Notation "x <- r ;; k" := (bind r (fun x => k))
  (at level 61, r at next level, right associativity).

(** ** numpy and xarray primitives *)

Module Np.

Open Scope float_scope.

(** [np.pi] *)
Definition pi : float := 3.141592653589793.

(** A labelled array along one dimension. *)
Definition labelled (A : Type) : Type := list (float * A).

(** Label lookup of the alignment step: the first entry carrying the label. *)
Fixpoint lookup {A : Type} (k : float) (l : labelled A) : option A :=
  match l with
  | [] => None
  | (k', a) :: tl => if k =? k' then Some a else lookup k tl
  end.

Definition has_label {A : Type} (l : labelled A) (k : float) : bool :=
  match lookup k l with
  | Some _ => true
  | None => false
  end.

(** Inner join of a left operand with a right one: the entries of the left
    whose label the right has too, combined by [f]. *)
Definition join {A B C : Type} (f : A -> B -> C)
    (l : labelled A) (r : labelled B) : labelled C :=
  flat_map (fun '(k, a) =>
              match lookup k r with
              | Some b => [(k, f a b)]
              | None => []
              end) l.

(** [skipna]: a NaN term counts as 0. *)
Definition nan_to_zero (x : float) : float := if is_nan x then 0 else x.

(** [.sum(dim=...)] of a float array, [skipna] being the default. *)
Definition nansum (l : list float) : float :=
  fold_left add (map nan_to_zero l) 0.

(** [.diff(dim)]: successive differences, one entry fewer. *)
Fixpoint diff (l : list float) : list float :=
  match l with
  | a :: (b :: _) as tl => (b - a) :: diff tl
  | _ => []
  end.

End Np.

Import Np.
Open Scope float_scope.

(** ** Classification tables: [diam_vel_classes] *)

Definition diameter_classes : list float :=
  [0.125; 0.250; 0.375; 0.500; 0.750; 1.000; 1.250; 1.500; 1.750;
   2.000; 2.500; 3.000; 3.500; 4.000; 4.500; 5.000; 5.500; 6.000;
   6.500; 7.000; 7.500; 8.000].

Definition velocity_classes : list float :=
  [0.100; 0.200; 0.400; 0.600; 0.800; 1.000; 1.400; 1.800; 2.200;
   2.600; 3.000; 3.400; 4.200; 5.000; 5.800; 6.600; 7.400; 8.200;
   9.000; 10.000].

Definition diam_vel_classes : list float * list float :=
  (diameter_classes, velocity_classes).

(** ** Spectrum estimator: [calculate_nd] *)

(** [delta_D]: [diameter.diff("diameter")] with [diameter[0]] put in front. *)
Definition bin_widths (diameter : list float) : result (list float) :=
  match diameter with
  | [] => Raise IndexError
  | d0 :: _ => Ok (d0 :: diff diameter)
  end.

(** [A = 228 * (20 - diameter / 2) / 1e6], the sampling area in m^2. *)
Definition area (d : float) : float := 228 * (20 - d / 2) / 1e6.

(** [denominator = delta_t * delta_D * velocity * A], labelled by diameter
    and, inside a row, by velocity. *)
Definition denominator (delta_t : float) (diameter velocity delta_D : list float)
  : labelled (labelled float) :=
  map (fun '(d, w) =>
         (d, map (fun v => (v, delta_t * w * v * area d)) velocity))
      (combine diameter delta_D).

(** [raw / denominator]: aligned on both dimensions. *)
Definition quotient (raw den : labelled (labelled float))
  : labelled (labelled float) :=
  join (fun row drow => join div row drow) raw den.

(** One bin of [(raw / denominator).sum(dim="velocity")]. *)
Definition nd_bin (cells : labelled float) : float := nansum (map snd cells).

Definition calculate_nd (raw : labelled (labelled float))
    (diameter velocity : list float) (delta_t : float)
  : result (labelled float) :=
  delta_D <- bin_widths diameter ;;
  let den := denominator delta_t diameter velocity delta_D in
  Ok (map (fun '(d, cells) => (d, nd_bin cells)) (quotient raw den)).

(** The default [delta_t=60]. *)
Definition default_delta_t : float := 60.

(** ** Bulk parameter integrator: [calculate_parameters_dsd] *)

Record bulk : Set := Bulk {
  R_ : float;     (* rain rate, mm/h *)
  W_ : float;     (* liquid water content, g/m^3 *)
  N_T : float;    (* total drop concentration, m^-3 *)
  Z_ : float;     (* radar reflectivity, mm^6/m^3 *)
  D_m : float;    (* mean diameter, mm *)
  N_w : float     (* normalized intercept parameter, m^-3 mm^-1 *)
}.

Section BulkIntegrator.

(** The C library's [pow], which numpy calls for [x ** y]. *)
Variable fpow : float -> float -> float.

(** [rho_w = 1.0] *)
Definition rho_w : float := 1.

(** A product of diameter-labelled arrays with [nd] in it, summed over the
    diameter: the bins are those of [diameter] that [nd] has too; [term]
    gets the diameter, the value of [nd] and the bin width. *)
Definition sum_over_diameter (term : float -> float -> float -> float)
    (nd : labelled float) (diameter delta_D : list float) : float :=
  nansum (map snd
    (join (fun '(d, w) n => term d n w)
          (map (fun '(d, w) => (d, (d, w))) (combine diameter delta_D)) nd)).

Definition calculate_parameters_dsd (nd : labelled float) (diameter : list float)
  : result bulk :=
  let vd := fun d => 17.67 * fpow (d / 10) 0.67 in
  delta_D <- bin_widths diameter ;;
  let R := (6 * pi / 1e4) *
           sum_over_diameter (fun d n w => fpow d 3 * vd d * n * w)
                             nd diameter delta_D in
  let W := (pi * rho_w / 6000) *
           sum_over_diameter (fun d n w => fpow d 3 * n * w) nd diameter delta_D in
  let N_T := sum_over_diameter (fun d n w => n * w) nd diameter delta_D in
  let Z := sum_over_diameter (fun d n w => fpow d 6 * n * w) nd diameter delta_D in
  let D_m := sum_over_diameter (fun d n w => fpow d 4 * n * w) nd diameter delta_D /
             sum_over_diameter (fun d n w => fpow d 3 * n * w) nd diameter delta_D in
  let N_w := (256 / pi * rho_w) * ((1e3 * W) / fpow D_m 4) in
  Ok (Bulk R W N_T Z D_m N_w).

End BulkIntegrator.

(** ** Event segmenter: [get_events] *)

Module Pd.

Open Scope Z_scope.

(** [.diff('time')] of the time coordinate, labelled by the later of the two
    timestamps (xarray's [label="upper"]): one row fewer than timestamps. *)
Fixpoint diff_time (ts : list Z) : list (Z * Z) :=
  match ts with
  | t0 :: (t1 :: _) as tl => (t1, t1 - t0) :: diff_time tl
  | _ => []
  end.

(** [.cumsum()] of a boolean column: the number of [True] so far, the
    row itself included. *)
Fixpoint cumsum (acc : Z) (rows : list (Z * bool)) : list (Z * Z) :=
  match rows with
  | [] => []
  | (t, b) :: tl =>
      let acc' := if b then acc + 1 else acc in
      (t, acc') :: cumsum acc' tl
  end.

(** The group keys of [groupby], each once and in increasing order. *)
Fixpoint insert_key (k : Z) (ks : list Z) : list Z :=
  match ks with
  | [] => [k]
  | k' :: tl =>
      if k <? k' then k :: ks
      else if k =? k' then ks
      else k' :: insert_key k tl
  end.

Definition keys (rows : list (Z * Z)) : list Z :=
  fold_right insert_key [] (map snd rows).

(** [groupby('date')]: for every key the index of the rows that carry it. *)
Definition groupby (rows : list (Z * Z)) : list (Z * list Z) :=
  map (fun k => (k, map fst (filter (fun r => snd r =? k) rows))) (keys rows).

(** [index.min()] and [index.max()] of a group; a group has a row. *)
Definition index_min (idx : list Z) : Z :=
  match idx with
  | [] => 0
  | t :: tl => fold_left Z.min tl t
  end.

Definition index_max (idx : list Z) : Z :=
  match idx with
  | [] => 0
  | t :: tl => fold_left Z.max tl t
  end.

(** [pd.Timedelta('10min')], in nanoseconds. *)
Definition sec : Z := 600000000000.

End Pd.

(** A dataset: for every time step its timestamp and the row of [nd] along
    the diameter. *)
Definition dataset : Type := list (Z * list float).

(** [ev]: the density of every step, [ds.nd.sum(dim='diameter')], kept
    where it exceeds [tot_counts] ([.where] puts NaN elsewhere) and then
    where it is not null. *)
Definition ev_series (ds : dataset) (tot_counts : float) : list (Z * float) :=
  let total := map (fun '(t, row) => (t, nansum row)) ds in
  let ev := map (fun '(t, x) => (t, if tot_counts <? x then x else nan)) total in
  filter (fun '(t, x) => negb (is_nan x)) ev.

(** [groups.groupby('date')]: the gaps between the timestamps of [ev], the
    breaks among them, their running count, and the rows of each count. *)
Definition event_groups (ev : list (Z * float)) : list (Z * list Z) :=
  let a := Pd.diff_time (map fst ev) in
  let breaks := map (fun '(t, gap) => (t, (Pd.sec <=? gap)%Z)) a in
  let groups := Pd.cumsum 0%Z breaks in
  Pd.groupby groups.

Definition get_events (ds : dataset) (time_lenght time_break : Z) (tot_counts : float)
  : list Z * list Z :=
  let groups := event_groups (ev_series ds tot_counts) in
  let long := fun g : Z * list Z =>
                (time_lenght <? Z.of_nat (length (snd g)))%Z in
  let start := map (fun g => Pd.index_min (snd g)) (filter long groups) in
  let end_ := map (fun g => Pd.index_max (snd g)) (filter long groups) in
  (start, end_).

(** The defaults [time_lenght=10, time_break=5, tot_counts=5]. *)
Definition default_time_lenght : Z := 10.
Definition default_time_break : Z := 5.
Definition default_tot_counts : float := 5.

(** ** Predicates and sample inputs of the statements *)

(** The four kinds of binary64 values. *)
Inductive kind : Set := KNan | KZero | KInf | KFin.

Definition kind_of (x : float) : kind :=
  match Prim2SF x with
  | S754_nan => KNan
  | S754_zero _ => KZero
  | S754_infinity _ => KInf
  | S754_finite _ _ _ => KFin
  end.

(** A zero of either sign, or NaN: what a product with a zero can be. *)
Definition zero_or_nan (x : float) : Prop :=
  kind_of x = KZero \/ kind_of x = KNan.


(** Every count of the matrix is a zero. *)
Definition all_counts_zero (raw : labelled (labelled float)) : bool :=
  forallb (fun row => forallb (fun cell => is_zero (snd cell)) (snd row)) raw.

(** The matrix has one row per diameter class and, in every row, one cell
    per velocity class. *)
Definition has_table_shape (raw : labelled (labelled float))
    (diameter velocity : list float) : bool :=
  Nat.eqb (length raw) (length diameter) &&
  forallb (fun row => Nat.eqb (length (snd row)) (length velocity)) raw.

(** The label is one of the table's. *)
Definition in_table (table : list float) (d : float) : bool :=
  existsb (fun d' => d =? d') table.

(** Every denominator of the table is strictly positive. *)
Definition all_positive (den : labelled (labelled float)) : bool :=
  forallb (fun row => forallb (fun cell => 0 <? snd cell) (snd row)) den.

(** Strictly increasing. *)
Fixpoint increasing (l : list float) : bool :=
  match l with
  | a :: (b :: _) as tl => (a <? b) && increasing tl
  | _ => true
  end.

(** A count matrix on the given labels with the same count everywhere. *)
Definition constant_counts (diameter velocity : list float) (c : float)
  : labelled (labelled float) :=
  map (fun d => (d, map (fun v => (v, c)) velocity)) diameter.


(** The instrument's matrix without its last diameter class: 21 by 20. *)
Definition short_counts : labelled (labelled float) :=
  constant_counts (removelast diameter_classes) velocity_classes 1.

(** [x ** y] by repeated multiplication on the integer exponents of the
    integrator, an instance of [fpow]; NaN on any other exponent. *)
Definition pow_by_mul (x y : float) : float :=
  if y =? 3 then x * x * x
  else if y =? 4 then x * x * x * x
  else if y =? 6 then x * x * x * x * x * x
  else nan.

(** No value of [nd] is present. *)
Definition all_missing (ds : dataset) : bool :=
  forallb (fun step => forallb is_nan (snd step)) ds.

(** No gap between successive timestamps reaches the tolerance: one run. *)
Definition no_break (ts : list Z) : bool :=
  forallb (fun r => negb (Pd.sec <=? snd r)%Z) (Pd.diff_time ts).

(** One minute, in nanoseconds. *)
Definition minute : Z := 60000000000.

(** [n] steps one minute apart from [t0] on, each with a density of 10
    in one diameter class. *)
Definition steady_run (t0 : Z) (n : nat) : dataset :=
  map (fun i => ((t0 + Z.of_nat i * minute)%Z, [10])) (seq 0 n).

(** ** Annual cycles: [Annual_Precipitation_Cycle] and
    [Annual_Precipitation_rain_gauge]

    A pandas [Series] over time is a list of (timestamp, value) pairs in
    the order of time.  The calendar is a parameter: [month_index] gives
    the month a timestamp falls in, counted from a fixed year on (twelve
    times the year plus the month, less one).  The monthly series is
    keyed by that count, which stands for the month-end label of pandas;
    its [index.month] is [month_number].  The sum pandas takes of the
    present values of a group (a compensated sum) is the parameter
    [fsum]. *)

Module Annual.

Section Calendar.

Variable month_index : Z -> Z.
Variable fsum : list float -> float.

(** The values that are not NaN. *)
Definition present (vals : list float) : list float :=
  filter (fun x => negb (is_nan x)) vals.

(** [.sum(min_count=1)] of a group: NaN without a present value. *)
Definition sum_min_count (vals : list float) : float :=
  match present vals with
  | [] => nan
  | p => fsum p
  end.

(** The number of present values, as a float. *)
Definition count_float (n : nat) : float :=
  of_uint63 (Uint63.of_Z (Z.of_nat n)).

(** [.mean()] of a group: over the present values, NaN without one. *)
Definition mean (vals : list float) : float :=
  match present vals with
  | [] => nan
  | p => fsum p / count_float (length p)
  end.

(** The months from [lo] to [hi], both included. *)
Definition months_between (lo hi : Z) : list Z :=
  map (fun i => (lo + Z.of_nat i)%Z) (seq 0 (Z.to_nat (hi - lo + 1))).

(** The values of the series in the month [m]. *)
Definition in_month (s : list (Z * float)) (m : Z) : list float :=
  map snd (filter (fun e => (month_index (fst e) =? m)%Z) s).

(** [.resample('ME').sum(min_count=1)]: one bin for every month from that
    of the earliest timestamp to that of the latest. *)
Definition resample_month_sum (s : list (Z * float)) : list (Z * float) :=
  match map (fun e => month_index (fst e)) s with
  | [] => []
  | m0 :: ms =>
      map (fun m => (m, sum_min_count (in_month s m)))
          (months_between (fold_left Z.min ms m0) (fold_left Z.max ms m0))
  end.

(** [index.month] of a monthly bin: 1 for January to 12 for December. *)
Definition month_number (m : Z) : Z := (m mod 12 + 1)%Z.

(** [.groupby(index.month).mean()]: for every month number that occurs, in
    increasing order, the mean of the bins of that number. *)
Definition month_means (monthly : list (Z * float)) : list (Z * float) :=
  map (fun k =>
         (k, mean (map snd (filter (fun e => (month_number (fst e) =? k)%Z)
                                   monthly))))
      (fold_right Pd.insert_key []
                  (map (fun e => month_number (fst e)) monthly)).

Definition Annual_Precipitation_rain_gauge (r_g : list (Z * float))
  : list (Z * float) * list (Z * float) :=
  let r_int_month := resample_month_sum r_g in
  let mean_monthly := month_means r_int_month in
  (r_int_month, mean_monthly).

Definition Annual_Precipitation_Cycle (R : list (Z * float)) (t : float)
  : list (Z * float) * list (Z * float) :=
  let r_int_minute := map (fun e => (fst e, snd e / t)) R in
  let r_int_month := resample_month_sum r_int_minute in
  let annual_cycle := month_means r_int_month in
  (r_int_month, annual_cycle).

End Calendar.

(** A calendar of months of thirty days, for examples. *)
Definition thirty_day_month (t : Z) : Z := (t / (43200 * minute))%Z.

End Annual.

(** ** [calculate_nd] on a [DataArray] *)

(** A count matrix as xarray holds it: the values by position, by diameter
    and then by velocity, the size of the velocity dimension, and for each
    dimension its index of coordinate labels, when it has one. *)
Record data_array : Type := DataArray {
  values : list (list float);
  n_velocity : nat;
  diameter_index : option (list float);
  velocity_index : option (list float)
}.

(** The sizes agree: every row has [n_velocity] cells and an index has one
    label per position. *)
Definition well_formed (raw : data_array) : bool :=
  forallb (fun row => Nat.eqb (length row) (n_velocity raw)) (values raw) &&
  match diameter_index raw with
  | Some labels => Nat.eqb (length labels) (length (values raw))
  | None => true
  end &&
  match velocity_index raw with
  | Some labels => Nat.eqb (length labels) (n_velocity raw)
  | None => true
  end.

(** Two labels are the same for an index: equal, or both NaN. *)
Definition label_eqb (x y : float) : bool := (x =? y) || (is_nan x && is_nan y).

(** [Index.equals]: the same labels in the same places. *)
Fixpoint same_labels (l1 l2 : list float) : bool :=
  match l1, l2 with
  | [], [] => true
  | x :: t1, y :: t2 => label_eqb x y && same_labels t1 t2
  | _, _ => false
  end.

(** [Index.is_unique]: no label twice. *)
Fixpoint unique (l : list float) : bool :=
  match l with
  | [] => true
  | x :: tl => negb (existsb (label_eqb x) tl) && unique tl
  end.

(** How a dimension of the count matrix meets the table of the
    denominator: position by position, or through the labels both have. *)
Inductive alignment : Set := Positional | ByLabel.

(** The alignment of one dimension.  Without an index the size must be the
    table's; with an index equal to the table's nothing moves; with
    another index the two are joined, which needs both to be unique. *)
Definition align_axis (index : option (list float)) (size : nat)
    (table : list float) : result alignment :=
  match index with
  | None =>
      if Nat.eqb size (length table) then Ok Positional
      else Raise AlignmentError
  | Some labels =>
      if same_labels labels table then Ok Positional
      else if unique labels && unique table then Ok ByLabel
      else Raise AlignmentError
  end.

(** A binary operation along an aligned dimension; the result carries the
    labels of the left operand when it has an index, of the right one
    otherwise. *)
Definition apply_alignment {A B C : Type} (a : alignment) (f : A -> B -> C)
    (index : option (list float)) (vals : list A) (r : labelled B)
  : labelled C :=
  match a, index with
  | ByLabel, Some labels => join f (combine labels vals) r
  | ByLabel, None => []
  | Positional, Some labels =>
      map (fun '(k, (x, (_, b))) => (k, f x b)) (combine labels (combine vals r))
  | Positional, None =>
      map (fun '(x, (k, b)) => (k, f x b)) (combine vals r)
  end.

Definition calculate_nd_array (raw : data_array)
    (diameter velocity : list float) (delta_t : float)
  : result (labelled float) :=
  delta_D <- bin_widths diameter ;;
  let den := denominator delta_t diameter velocity delta_D in
  along_diameter <- align_axis (diameter_index raw) (length (values raw))
                               diameter ;;
  along_velocity <- align_axis (velocity_index raw) (n_velocity raw)
                               velocity ;;
  let quotient :=
    apply_alignment along_diameter
      (fun row drow =>
         apply_alignment along_velocity div (velocity_index raw) row drow)
      (diameter_index raw) (values raw) den in
  Ok (map (fun '(d, cells) => (d, nd_bin cells)) quotient).

(** A dimension without an index whose size is not the table's. *)
Definition unlabelled_mismatch (raw : data_array)
    (diameter velocity : list float) : bool :=
  match diameter_index raw with
  | None => negb (Nat.eqb (length (values raw)) (length diameter))
  | Some _ => false
  end ||
  match velocity_index raw with
  | None => negb (Nat.eqb (n_velocity raw) (length velocity))
  | Some _ => false
  end.

(** Both dimensions have an index, with no label twice and none NaN. *)
Definition labelled_unique (raw : data_array) : bool :=
  match diameter_index raw, velocity_index raw with
  | Some dl, Some vl =>
      unique dl && forallb (fun k => negb (is_nan k)) dl &&
      unique vl && forallb (fun k => negb (is_nan k)) vl
  | _, _ => false
  end.

(** The labels of the diameter dimension, if it has an index. *)
Definition diameter_labels (raw : data_array) : list float :=
  match diameter_index raw with
  | Some labels => labels
  | None => []
  end.

(** The matrix has the sizes of the tables. *)
Definition has_array_shape (raw : data_array)
    (diameter velocity : list float) : bool :=
  Nat.eqb (length (values raw)) (length diameter) &&
  Nat.eqb (n_velocity raw) (length velocity).

(** A matrix with the same count in every cell. *)
Definition constant_array (n_d n_v : nat) (c : float)
    (dl vl : option (list float)) : data_array :=
  DataArray (repeat (repeat c n_v) n_d) n_v dl vl.

(** The instrument's matrix without its last diameter class, 21 by 20,
    with its coordinate labels and without. *)
Definition short_array : data_array :=
  constant_array 21 20 1 (Some (removelast diameter_classes))
                 (Some velocity_classes).

Definition short_array_unlabelled : data_array :=
  constant_array 21 20 1 None None.

(** ** [get_events] with the density as numpy adds it *)

Section Density.

(** [.sum(dim='diameter')] of the row of one time step: the sum of its
    values that are not NaN, in the order in which numpy adds them. *)
Variable total : list float -> float.

Definition ev_series_with (ds : dataset) (tot_counts : float)
  : list (Z * float) :=
  let density := map (fun '(t, row) => (t, total row)) ds in
  let ev := map (fun '(t, x) => (t, if tot_counts <? x then x else nan))
                density in
  filter (fun '(t, x) => negb (is_nan x)) ev.

Definition get_events_with (ds : dataset) (time_lenght time_break : Z)
    (tot_counts : float) : list Z * list Z :=
  let groups := event_groups (ev_series_with ds tot_counts) in
  let long := fun g : Z * list Z =>
                (time_lenght <? Z.of_nat (length (snd g)))%Z in
  let start := map (fun g => Pd.index_min (snd g)) (filter long groups) in
  let end_ := map (fun g => Pd.index_max (snd g)) (filter long groups) in
  (start, end_).

End Density.

(** ** [atlas_ulbrich_velocity] in binary64 *)

Section FallSpeed64.

(** The C library's [pow]. *)
Variable fpow : float -> float -> float.

Definition atlas_ulbrich_velocity (diameter : float) : float :=
  let vd := 17.67 * fpow (diameter / 10) 0.67 in
  vd.

End FallSpeed64.

(** The power of exponent 1, an instance of [fpow] for examples. *)
Definition pow_one (x y : float) : float := x.

(** A timestamp that is far from the ends of the 64-bit range: between
    any two of them the difference does not wrap. *)
Definition in_range (t : Z) : bool :=
  (- 4611686018427387904 <=? t)%Z && (t <? 4611686018427387904)%Z.

(** ** Further predicates *)

(** The sign of a binary64 value; NaN has none. *)
Definition SFsign (y : spec_float) : option bool :=
  match y with
  | S754_nan => None
  | S754_zero s | S754_infinity s | S754_finite s _ _ => Some s
  end.

(** Not below zero: a zero of either sign, or a value of positive sign. *)
Definition SFnonneg (y : spec_float) : Prop :=
  match y with
  | S754_nan => False
  | S754_zero _ => True
  | S754_infinity s | S754_finite s _ _ => s = false
  end.

(** Not below zero, or missing. *)
Definition nonneg_or_nan (x : float) : bool := (0 <=? x) || is_nan x.

(** No count of the matrix is below zero. *)
Definition counts_nonneg (raw : labelled (labelled float)) : bool :=
  forallb (fun row => forallb (fun cell => nonneg_or_nan (snd cell)) (snd row))
          raw.

(** Every count of the matrix is a zero or missing. *)
Definition counts_zero_or_missing (raw : labelled (labelled float)) : bool :=
  forallb (fun row => forallb (fun cell => is_zero (snd cell) || is_nan (snd cell))
                              (snd row)) raw.

(** The bin widths of the table exist and none is below zero. *)
Definition widths_nonneg (diameter : list float) : bool :=
  match bin_widths diameter with
  | Ok delta_D => forallb nonneg_or_nan delta_D
  | Raise _ => false
  end.

(** The denominators of the tables exist and all are strictly positive. *)
Definition denominators_all_positive (diameter velocity : list float)
    (delta_t : float) : bool :=
  match bin_widths diameter with
  | Ok delta_D => all_positive (denominator delta_t diameter velocity delta_D)
  | Raise _ => false
  end.

(** The events of [get_events] as (start, end) pairs. *)
Definition events (ds : dataset) (time_lenght time_break : Z) (tot_counts : float)
  : list (Z * Z) :=
  let '(start, end_) := get_events ds time_lenght time_break tot_counts in
  combine start end_.

(** A row of the grouped table comes before another: its label is
    earlier and its group is not a later one. *)
Definition row_before (r r' : Z * Z) : Prop :=
  (fst r < fst r')%Z /\ (snd r <= snd r')%Z.

(** An event is over before another starts. *)
Definition event_before (e e' : Z * Z) : Prop := (snd e < fst e')%Z.

(** Each entry is the one before plus one. *)
Definition consecutive (l : list Z) : Prop :=
  forall (i : nat) (a b : Z),
    nth_error l i = Some a -> nth_error l (S i) = Some b -> b = (a + 1)%Z.

(** The same series, every timestamp moved by [c]. *)
Definition shift_time (c : Z) (ds : dataset) : dataset :=
  map (fun step => ((c + fst step)%Z, snd step)) ds.

(** The bins of a monthly series in the calendar month of [m], [m]
    itself left out: the same month of the other years. *)
Definition other_years (m : Z) (monthly : list (Z * float)) : list (Z * float) :=
  filter (fun e => (Annual.month_number (fst e) =? Annual.month_number m)%Z
                   && negb (fst e =? m)%Z) monthly.

(** ** The value of a rounded number *)

(** Powers of two. *)
Definition bpow (e : Z) : R := powerRZ 2 e.

(** The fractional part [f] that the round and sticky bits stand for. *)
Definition frac_ok (r s : bool) (f : R) : Prop :=
  match r, s with
  | false, false => f = 0%R
  | false, true => (0 < f < 1 / 2)%R
  | true, false => f = (1 / 2)%R
  | true, true => (1 / 2 < f < 1)%R
  end.

(** A truncated mantissa with its two bits stands for the scaled value [x]. *)
Definition represents (mrs : shr_record) (x : R) : Prop :=
  (0 <= shr_m mrs)%Z /\
  frac_ok (shr_r mrs) (shr_s mrs) (x - IZR (shr_m mrs))%R.

(** Rounding to nearest, ties to even, of a truncated mantissa. *)
Definition rne (mrs : shr_record) : Z :=
  round_nearest_even (shr_m mrs) (loc_of_shr_record mrs).

(** The truncation of [v] at the exponent of its format. *)
Definition truncates (mrs : shr_record) (e : Z) (v : R) : Prop :=
  represents mrs (v * bpow (- e))%R /\
  (-1074 <= e)%Z /\
  (shr_m mrs < 2 ^ 53)%Z /\
  (e = (-1074)%Z \/ (2 ^ 52 <= shr_m mrs)%Z).

(** The mantissa and exponent that [binary_round_aux] ends with. *)
Definition rounded (m e : Z) (l : location) : Z * Z :=
  let '(mrs', e') := shr_fexp prec emax m e l in
  let '(mrs'', e'') := shr_fexp prec emax (rne mrs') e' loc_Exact in
  (shr_m mrs'', e'').

(** The order of two such pairs. *)
Definition pair_le (a b : Z * Z) : Prop :=
  fst a = 0%Z \/
  ((0 < fst a)%Z /\ (0 < fst b)%Z /\
   ((snd a < snd b)%Z \/ (snd a = snd b /\ (fst a <= fst b)%Z))).

(** The number that a mantissa and an exponent stand for, once the
    exponent is checked against the largest one. *)
Definition finish (s : bool) (a : Z * Z) : spec_float :=
  match fst a with
  | Z0 => S754_zero s
  | Zpos p => if (snd a <=? emax - prec)%Z then S754_finite s p (snd a)
              else S754_infinity s
  | Zneg _ => S754_nan
  end.

(** The value of a positive finite number. *)
Definition value (m : positive) (e : Z) : R := (IZR (Z.pos m) * bpow e)%R.

(** * Properties *)

(** ** Binary64 values by kind *)

Lemma SFeqb_refl (y : spec_float) : y <> S754_nan -> SFeqb y y = true.
Proof.
  destruct y as [s|s| |s m e]; intros Hy; try congruence.
  - reflexivity.
  - destruct s; reflexivity.
  - unfold SFeqb, SFcompare.
    rewrite Z.compare_refl, Pos.compare_cont_refl. destruct s; reflexivity.
Qed.

Lemma is_nan_kind (x : float) : is_nan x = true <-> kind_of x = KNan.
Proof.
  unfold is_nan, kind_of. rewrite eqb_spec.
  destruct (Prim2SF x) as [s|s| |s m e] eqn:E.
  - split; discriminate.
  - rewrite SFeqb_refl by discriminate. split; discriminate.
  - split; reflexivity.
  - rewrite SFeqb_refl by discriminate. split; discriminate.
Qed.

Lemma is_zero_kind (x : float) : is_zero x = true <-> kind_of x = KZero.
Proof.
  unfold is_zero, kind_of. rewrite eqb_spec.
  change (Prim2SF zero) with (S754_zero false).
  destruct (Prim2SF x) as [s|s| |s m e]; cbn.
  - split; reflexivity.
  - destruct s; split; discriminate.
  - split; discriminate.
  - destruct s; split; discriminate.
Qed.


Lemma is_nan_false_kind (x : float) : is_nan x = false <-> kind_of x <> KNan.
Proof.
  rewrite <- is_nan_kind. destruct (is_nan x); split; congruence.
Qed.



(** The kind of a product, quotient or sum is read off the specification
    of the operation. *)
Ltac spec_kind :=
  unfold kind_of;
  rewrite ?mul_spec, ?div_spec, ?add_spec;
  unfold SF64mul, SF64div, SF64add.

(** All NaN are one value. *)
Lemma nan_unique (x : float) : is_nan x = true -> x = nan.
Proof.
  rewrite is_nan_kind. unfold kind_of. intros H.
  apply Prim2SF_inj. change (Prim2SF nan) with S754_nan.
  destruct (Prim2SF x); congruence.
Qed.

(** The kind of a quotient by a zero. *)
Lemma kind_div_zero (c q : float) :
  kind_of q = KZero ->
  kind_of (c / q) =
    match kind_of c with
    | KNan | KZero => KNan
    | KInf | KFin => KInf
    end.
Proof.
  spec_kind.
  destruct (Prim2SF q); try discriminate. intros _.
  destruct (Prim2SF c); reflexivity.
Qed.

(** The kind of a quotient of a zero. *)
Lemma kind_zero_div (c q : float) :
  kind_of c = KZero ->
  kind_of (c / q) =
    match kind_of q with
    | KNan | KZero => KNan
    | KInf | KFin => KZero
    end.
Proof.
  spec_kind.
  destruct (Prim2SF c); try discriminate. intros _.
  destruct (Prim2SF q); reflexivity.
Qed.

(** A product with a zero is a zero or NaN. *)
Lemma kind_mul_zero_r (x z : float) :
  kind_of z = KZero -> kind_of (x * z) = KZero \/ kind_of (x * z) = KNan.
Proof.
  spec_kind.
  destruct (Prim2SF z); try discriminate. intros _.
  destruct (Prim2SF x); cbn; auto.
Qed.

Lemma kind_mul_zero_l (z x : float) :
  kind_of z = KZero -> kind_of (z * x) = KZero \/ kind_of (z * x) = KNan.
Proof.
  spec_kind.
  destruct (Prim2SF z); try discriminate. intros _.
  destruct (Prim2SF x); cbn; auto.
Qed.

Lemma kind_mul_nan_l (x y : float) : kind_of x = KNan -> kind_of (x * y) = KNan.
Proof.
  spec_kind.
  destruct (Prim2SF x); try discriminate. reflexivity.
Qed.

Lemma kind_mul_nan_r (x y : float) : kind_of y = KNan -> kind_of (x * y) = KNan.
Proof.
  spec_kind.
  destruct (Prim2SF y); try discriminate. destruct (Prim2SF x); reflexivity.
Qed.

(** A finite non-zero factor keeps a zero a zero. *)
Lemma kind_mul_fin_zero (c z : float) :
  kind_of c = KFin -> kind_of z = KZero -> kind_of (c * z) = KZero.
Proof.
  spec_kind.
  destruct (Prim2SF c); try discriminate.
  destruct (Prim2SF z); try discriminate. reflexivity.
Qed.

Lemma kind_add_zero (x y : float) :
  kind_of x = KZero -> kind_of y = KZero -> kind_of (x + y) = KZero.
Proof.
  spec_kind.
  destruct (Prim2SF x) as [[]| | |]; try discriminate;
    destruct (Prim2SF y) as [[]| | |]; try discriminate; reflexivity.
Qed.



Lemma kind_zero : kind_of 0 = KZero.
Proof. reflexivity. Qed.

Lemma kind_nan_to_zero (x : float) :
  kind_of (nan_to_zero x) = match kind_of x with KNan => KZero | k => k end.
Proof.
  unfold nan_to_zero. destruct (is_nan x) eqn:E.
  - apply is_nan_kind in E. now rewrite E.
  - apply is_nan_false_kind in E. destruct (kind_of x); congruence.
Qed.

(** ** Sums that skip NaN *)

Lemma fold_add_zeros (l : list float) (acc : float) :
  kind_of acc = KZero -> Forall zero_or_nan l ->
  kind_of (fold_left add (map nan_to_zero l) acc) = KZero.
Proof.
  intros Hacc Hl. revert acc Hacc.
  induction Hl as [|x l Hx _ IH]; intros acc Hacc; cbn; [exact Hacc|].
  apply IH. apply kind_add_zero; [exact Hacc|].
  rewrite kind_nan_to_zero. destruct Hx as [-> | ->]; reflexivity.
Qed.

Lemma nansum_zeros (l : list float) :
  Forall zero_or_nan l -> kind_of (nansum l) = KZero.
Proof. intros Hl. apply fold_add_zeros; [apply kind_zero | exact Hl]. Qed.



Lemma nansum_all_nan (l : list float) :
  forallb is_nan l = true -> nansum l = 0.
Proof.
  unfold nansum. induction l as [|x l IH]; cbn [forallb map fold_left];
    [reflexivity|].
  rewrite andb_true_iff. intros [Hx Hl].
  replace (nan_to_zero x) with 0 by (unfold nan_to_zero; now rewrite Hx).
  change (0 + 0) with 0. now apply IH.
Qed.

(** ** Alignment by label *)

Lemma lookup_in {A : Type} (k : float) (l : labelled A) (a : A) :
  lookup k l = Some a -> exists k', In (k', a) l.
Proof.
  induction l as [|[k' a'] l IH]; cbn; [discriminate|].
  destruct (k =? k').
  - intros [= ->]. eauto.
  - intros H. destruct (IH H) as [k'' Hin]. eauto.
Qed.

Lemma has_label_in_table {A : Type} (l : labelled A) (k : float) :
  has_label l k = in_table (map fst l) k.
Proof.
  unfold has_label, in_table.
  induction l as [|[k' a] l IH]; cbn; [reflexivity|].
  destruct (k =? k'); [reflexivity | exact IH].
Qed.

Lemma join_labels {A B C : Type} (f : A -> B -> C)
    (l : labelled A) (r : labelled B) :
  map fst (join f l r) = filter (has_label r) (map fst l).
Proof.
  unfold join, has_label.
  induction l as [|[k a] l IH]; cbn; [reflexivity|].
  destruct (lookup k r); cbn; now rewrite IH.
Qed.

Lemma in_join {A B C : Type} (f : A -> B -> C)
    (l : labelled A) (r : labelled B) (k : float) (c : C) :
  In (k, c) (join f l r) ->
  exists a b, In (k, a) l /\ lookup k r = Some b /\ c = f a b.
Proof.
  unfold join. rewrite in_flat_map. intros [[k' a] [Hin Hc]].
  destruct (lookup k' r) as [b|] eqn:E; cbn in Hc; [|contradiction].
  destruct Hc as [[= <- <-]|[]]. eauto.
Qed.

Lemma join_app {A B C : Type} (f : A -> B -> C)
    (l1 l2 : labelled A) (r : labelled B) :
  join f (l1 ++ l2) r = join f l1 r ++ join f l2 r.
Proof. unfold join. apply flat_map_app. Qed.

(** ** The bin widths *)

Lemma diff_length (l : list float) : length (diff l) = pred (length l).
Proof.
  induction l as [|a [|b tl] IH]; cbn in *; [reflexivity | reflexivity |].
  now rewrite IH.
Qed.

Lemma bin_widths_ok (diameter : list float) :
  diameter <> [] ->
  exists delta_D, bin_widths diameter = Ok delta_D /\
                  length delta_D = length diameter /\
                  hd_error delta_D = hd_error diameter.
Proof.
  destruct diameter as [|d0 tl]; [congruence|]. intros _.
  exists (d0 :: diff (d0 :: tl)). split; [reflexivity|].
  split; [|reflexivity]. cbn [length]. now rewrite diff_length.
Qed.

Lemma combine_labels {A : Type} (l : list float) (r : list A) :
  length r = length l -> map fst (combine l r) = l.
Proof.
  revert r. induction l as [|a l IH]; intros [|b r]; cbn; try discriminate;
    [reflexivity|]. intros [= H]. now rewrite IH.
Qed.

Lemma denominator_labels (delta_t : float) (diameter velocity delta_D : list float) :
  length delta_D = length diameter ->
  map fst (denominator delta_t diameter velocity delta_D) = diameter.
Proof.
  intros H. unfold denominator. rewrite map_map.
  rewrite <- (combine_labels diameter delta_D H) at 2.
  apply map_ext. now intros [d w].
Qed.

(** ** The result of [calculate_nd] *)

(** With a diameter table that has a class, [calculate_nd] returns, and its
    bins are the diameter labels of the matrix that the table has. *)
Lemma calculate_nd_returns (raw : labelled (labelled float))
    (diameter velocity : list float) (delta_t : float) :
  diameter <> [] ->
  exists delta_D,
    bin_widths diameter = Ok delta_D /\
    calculate_nd raw diameter velocity delta_t =
      Ok (map (fun '(d, cells) => (d, nd_bin cells))
              (quotient raw (denominator delta_t diameter velocity delta_D))) /\
    map fst (quotient raw (denominator delta_t diameter velocity delta_D)) =
      filter (in_table diameter) (map fst raw).
Proof.
  intros Hd. destruct (bin_widths_ok diameter Hd) as [delta_D [Hw [Hlen _]]].
  exists delta_D. split; [exact Hw|]. split.
  - unfold calculate_nd. rewrite Hw. reflexivity.
  - unfold quotient. rewrite join_labels. apply filter_ext. intros d.
    now rewrite has_label_in_table, denominator_labels.
Qed.

Lemma nd_labels (q : labelled (labelled float)) :
  map fst (map (fun '(d, cells) => (d, nd_bin cells)) q) = map fst q.
Proof. rewrite map_map. apply map_ext. now intros [d cells]. Qed.

Lemma quotient_row_zero_counts (row drow : labelled float) :
  forallb (fun cell => is_zero (snd cell)) row = true ->
  Forall zero_or_nan (map snd (join div row drow)).
Proof.
  intros Hrow. rewrite forallb_forall in Hrow.
  apply Forall_forall. intros y Hy.
  apply in_map_iff in Hy. destruct Hy as [[v y'] [<- Hin]].
  apply in_join in Hin. destruct Hin as [c [q [Hc [_ ->]]]].
  specialize (Hrow _ Hc). cbn in *. apply is_zero_kind in Hrow.
  unfold zero_or_nan. rewrite (kind_zero_div c q Hrow).
  destruct (kind_of q); auto.
Qed.

(** A bin whose counts are all zero has N(D) = 0, whatever its denominators. *)
Lemma nd_bin_zero_counts (row drow : labelled float) :
  forallb (fun cell => is_zero (snd cell)) row = true ->
  is_zero (nd_bin (join div row drow)) = true.
Proof.
  intros Hrow. apply is_zero_kind. unfold nd_bin.
  apply nansum_zeros. now apply quotient_row_zero_counts.
Qed.


(** ** C1: zero denominators *)







(** ** C5: a matrix of zero counts *)

(** C5: with the instrument's classes, and whatever the sampling interval, a
    count matrix that is zero everywhere gives a result, whose bins are the
    diameter labels of the matrix that the table has (all 22 when the matrix
    is on the table's labels) and whose N(D) is zero, hence not NaN, in every
    bin. *)
Theorem calculate_nd_zero_counts
    (raw : labelled (labelled float)) (delta_t : float) :
  all_counts_zero raw = true ->
  exists nd,
    calculate_nd raw diameter_classes velocity_classes delta_t = Ok nd /\
    (map fst raw = diameter_classes -> map fst nd = diameter_classes) /\
    Forall (fun b => is_zero (snd b) = true /\ is_nan (snd b) = false) nd.
Proof.
  intros Hraw.
  destruct (calculate_nd_returns raw diameter_classes velocity_classes delta_t)
    as [delta_D [_ [Hnd Hlab]]]; [discriminate|].
  eexists. split; [exact Hnd|]. split.
  - intros Hgrid. rewrite nd_labels, Hlab, Hgrid. reflexivity.
  - apply Forall_forall. intros [d x] Hin. cbn.
    apply in_map_iff in Hin. destruct Hin as [[d' cells] [[= <- <-] Hin]].
    unfold quotient in Hin. apply in_join in Hin.
    destruct Hin as [row [drow [Hrow [_ ->]]]].
    unfold all_counts_zero in Hraw. rewrite forallb_forall in Hraw.
    specialize (Hraw _ Hrow). cbn in Hraw.
    pose proof (nd_bin_zero_counts row drow Hraw) as Hz.
    split; [exact Hz|].
    apply is_nan_false_kind. apply is_zero_kind in Hz. congruence.
Qed.

(** The instrument's 22 by 20 matrix of zeros, at the default interval. *)
Lemma calculate_nd_zero_counts_witness :
  exists nd,
    calculate_nd (constant_counts diameter_classes velocity_classes 0)
                 diameter_classes velocity_classes default_delta_t = Ok nd /\
    (map fst (constant_counts diameter_classes velocity_classes 0)
       = diameter_classes -> map fst nd = diameter_classes) /\
    Forall (fun b => is_zero (snd b) = true /\ is_nan (snd b) = false) nd.
Proof.
  apply (calculate_nd_zero_counts
           (constant_counts diameter_classes velocity_classes 0)
           default_delta_t).
  vm_compute. reflexivity.
Defined.

(** ** C6: the shape of the count matrix *)

(** C6, as stated, fails: the instrument's matrix without its last diameter
    class is 21 by 20, and [calculate_nd] returns N(D) for its 21 classes. *)
Lemma calculate_nd_short_counts_returns :
  has_table_shape short_counts diameter_classes velocity_classes = false /\
  has_array_shape short_array diameter_classes velocity_classes = false /\
  exists nd,
    calculate_nd short_counts diameter_classes velocity_classes default_delta_t
      = Ok nd /\
    calculate_nd_array short_array diameter_classes velocity_classes
                       default_delta_t = Ok nd /\
    map fst nd = removelast diameter_classes /\ length nd = 21%nat.
Proof.
  split; [reflexivity|]. split; [reflexivity|]. eexists.
  split; [vm_compute; reflexivity|]. split; [vm_compute; reflexivity|].
  split; reflexivity.
Qed.

Lemma align_axis_raises (index : option (list float)) (size : nat)
    (table : list float) (e : exn) :
  align_axis index size table = Raise e -> e = AlignmentError.
Proof.
  unfold align_axis. destruct index as [labels|].
  - destruct (same_labels labels table); [discriminate|].
    destruct (unique labels && unique table); [discriminate|]. now intros [= <-].
  - destruct (Nat.eqb size (length table)); [discriminate|]. now intros [= <-].
Qed.

Lemma same_labels_length (l t : list float) :
  same_labels l t = true -> length l = length t.
Proof.
  revert t. induction l as [|x l IH]; intros [|y t]; cbn; try discriminate;
    [reflexivity|]. rewrite andb_true_iff. intros [_ H]. now rewrite (IH t H).
Qed.

Lemma in_table_cons (t : list float) (y x : float) :
  in_table t x = true -> in_table (y :: t) x = true.
Proof. unfold in_table. cbn. intros ->. apply orb_true_r. Qed.

Lemma same_labels_in_table (l t : list float) :
  same_labels l t = true ->
  forallb (fun k => negb (is_nan k)) l = true ->
  forall x, In x l -> in_table t x = true.
Proof.
  revert t. induction l as [|a l IH]; intros [|y t]; cbn [same_labels forallb];
    try discriminate; [contradiction|].
  rewrite !andb_true_iff. intros [Ha Hl] [Hn Hns] x [<-|Hx].
  - unfold in_table. cbn [existsb]. unfold label_eqb in Ha.
    apply negb_true_iff in Hn. rewrite Hn in Ha. cbn in Ha.
    rewrite orb_false_r in Ha. now rewrite Ha.
  - apply in_table_cons. now apply (IH t).
Qed.

Lemma filter_all {A : Type} (f : A -> bool) (l : list A) :
  (forall x, In x l -> f x = true) -> filter f l = l.
Proof.
  induction l as [|a l IH]; intros H; cbn; [reflexivity|].
  rewrite (H a (or_introl eq_refl)). f_equal. apply IH.
  intros x Hx. apply H. now right.
Qed.

Lemma combine_labels_le {A : Type} (l : list float) (r : list A) :
  (length l <= length r)%nat -> map fst (combine l r) = l.
Proof.
  revert r. induction l as [|a l IH]; intros [|b r]; cbn; intros H;
    try reflexivity; try lia. f_equal. apply IH. lia.
Qed.

(** The bins of an aligned quotient, for a matrix that has an index along
    the diameter. *)
Lemma apply_alignment_labels {A B C : Type} (f : A -> B -> C)
    (labels : list float) (vals : list A) (r : labelled B) (a : alignment) :
  length labels = length vals ->
  forallb (fun k => negb (is_nan k)) labels = true ->
  align_axis (Some labels) (length vals) (map fst r) = Ok a ->
  map fst (apply_alignment a f (Some labels) vals r) =
  filter (in_table (map fst r)) labels.
Proof.
  intros Hlen Hnan. unfold align_axis.
  destruct (same_labels labels (map fst r)) eqn:Hsame.
  - intros [= <-]. cbn [apply_alignment].
    rewrite filter_all by now apply same_labels_in_table.
    rewrite map_map.
    rewrite <- (combine_labels_le labels (combine vals r)) at 2.
    + apply map_ext. now intros [k [x [k' b]]].
    + rewrite length_combine. apply same_labels_length in Hsame.
      rewrite length_map in Hsame. lia.
  - destruct (unique labels && unique (map fst r)); [|discriminate].
    intros [= <-]. cbn [apply_alignment].
    rewrite join_labels, combine_labels by now rewrite Hlen.
    apply filter_ext. intros k. apply has_label_in_table.
Qed.

(** C6, amended: [calculate_nd] makes no check of the shape of its own;
    the alignment of [raw / denominator] decides.  On tables without a
    label twice, the diameter table having a class: a count matrix
    without coordinate labels along a dimension, whose size there is not
    the table's, raises the error of the alignment; a count matrix with
    coordinate labels on both dimensions, none twice and none NaN, is
    accepted whatever its shape, and the bins of the result are its
    diameter labels that the table has. *)
Theorem calculate_nd_array_alignment (raw : data_array)
    (diameter velocity : list float) (delta_t : float) :
  diameter <> [] ->
  unique diameter && unique velocity = true ->
  well_formed raw = true ->
  (unlabelled_mismatch raw diameter velocity = true ->
     calculate_nd_array raw diameter velocity delta_t = Raise AlignmentError) /\
  (labelled_unique raw = true ->
     exists nd,
       calculate_nd_array raw diameter velocity delta_t = Ok nd /\
       map fst nd = filter (in_table diameter) (diameter_labels raw)).
Proof.
  intros Hd Huniq Hwf. apply andb_true_iff in Huniq. destruct Huniq as [Hud Huv].
  destruct (bin_widths_ok diameter Hd) as [delta_D [Hw [Hlen _]]].
  unfold calculate_nd_array. rewrite Hw. cbn [bind]. split.
  - unfold unlabelled_mismatch. intros Hm.
    destruct (align_axis (diameter_index raw) (length (values raw)) diameter)
      as [ad|e] eqn:Ead; cbn [bind];
      [|now rewrite (align_axis_raises _ _ _ _ Ead)].
    destruct (align_axis (velocity_index raw) (n_velocity raw) velocity)
      as [av|e] eqn:Eav; cbn [bind];
      [|now rewrite (align_axis_raises _ _ _ _ Eav)].
    exfalso. unfold align_axis in Ead, Eav.
    destruct (diameter_index raw) as [dl|], (velocity_index raw) as [vl|];
      cbn in Hm; try discriminate.
    + destruct (Nat.eqb (n_velocity raw) (length velocity)); discriminate.
    + destruct (Nat.eqb (length (values raw)) (length diameter)); discriminate.
    + destruct (Nat.eqb (length (values raw)) (length diameter));
        [|discriminate].
      destruct (Nat.eqb (n_velocity raw) (length velocity)); discriminate.
  - unfold labelled_unique, diameter_labels, well_formed in *.
    destruct (diameter_index raw) as [dl|] eqn:Edl; [|discriminate].
    destruct (velocity_index raw) as [vl|] eqn:Evl; [|discriminate].
    rewrite !andb_true_iff. intros [[[Hdu Hdn] Hvu] Hvn].
    rewrite !andb_true_iff in Hwf. destruct Hwf as [[_ Hdl] _].
    apply Nat.eqb_eq in Hdl.
    assert (Had : exists ad, align_axis (Some dl) (length (values raw)) diameter
                             = Ok ad).
    { unfold align_axis. destruct (same_labels dl diameter); [eauto|].
      rewrite Hdu, Hud. cbn. eauto. }
    assert (Hav : exists av, align_axis (Some vl) (n_velocity raw) velocity
                             = Ok av).
    { unfold align_axis. destruct (same_labels vl velocity); [eauto|].
      rewrite Hvu, Huv. cbn. eauto. }
    destruct Had as [ad Had], Hav as [av Hav]. rewrite Had, Hav. cbn [bind].
    eexists. split; [reflexivity|]. rewrite nd_labels.
    pose proof (apply_alignment_labels
                  (fun row drow =>
                     apply_alignment av div (Some vl) row drow)
                  dl (values raw)
                  (denominator delta_t diameter velocity delta_D) ad Hdl Hdn)
      as H.
    rewrite (denominator_labels delta_t diameter velocity delta_D Hlen) in H.
    now apply H.
Qed.

(** The 21 by 20 matrix with its coordinate labels, on the instrument's
    tables. *)
Lemma calculate_nd_array_alignment_witness :
  exists nd,
    calculate_nd_array short_array diameter_classes velocity_classes
                       default_delta_t = Ok nd /\
    map fst nd = filter (in_table diameter_classes) (diameter_labels short_array).
Proof.
  apply (calculate_nd_array_alignment short_array diameter_classes
           velocity_classes default_delta_t); try reflexivity.
  discriminate.
Defined.

(** The same matrix without coordinate labels. *)
Lemma calculate_nd_array_unlabelled_raises :
  unlabelled_mismatch short_array_unlabelled diameter_classes velocity_classes
  = true /\
  calculate_nd_array short_array_unlabelled diameter_classes velocity_classes
                     default_delta_t = Raise AlignmentError.
Proof. split; vm_compute; reflexivity. Qed.

(** ** C8: the bin width vector *)

(** C8: the bin widths of the 22 diameter classes are 22, the first is the
    first diameter, 0.125, and all are positive. *)
Theorem bin_widths_of_classes :
  exists delta_D,
    bin_widths diameter_classes = Ok delta_D /\
    length delta_D = length diameter_classes /\
    length delta_D = 22%nat /\
    hd_error delta_D = hd_error diameter_classes /\
    hd_error delta_D = Some 0.125 /\
    forallb (fun w => 0 <? w) delta_D = true.
Proof. eexists. repeat split; vm_compute; reflexivity. Qed.

(** ** C10: the denominators of the instrument *)

(** C10: the instrument has 22 diameter classes, positive, increasing and
    below 40 mm, and 20 velocity classes, positive; with them and
    [delta_t = 60] the denominator table is 22 by 20 and every entry is
    strictly positive, so none is a zero. *)
Theorem denominators_positive :
  length diameter_classes = 22%nat /\
  forallb (fun d => 0 <? d) diameter_classes = true /\
  increasing diameter_classes = true /\
  forallb (fun d => d <? 40) diameter_classes = true /\
  length velocity_classes = 20%nat /\
  forallb (fun v => 0 <? v) velocity_classes = true /\
  exists delta_D,
    bin_widths diameter_classes = Ok delta_D /\
    let den := denominator default_delta_t diameter_classes velocity_classes
                 delta_D in
    has_table_shape den diameter_classes velocity_classes = true /\
    all_positive den = true /\
    forallb (fun row => forallb (fun cell => negb (is_zero (snd cell))) (snd row))
            den = true.
Proof.
  repeat split; try (vm_compute; reflexivity).
  eexists. repeat split; vm_compute; reflexivity.
Qed.

(** ** C4: the bulk parameters of a zero spectrum *)

Lemma kind_div_nan_r (c q : float) : kind_of q = KNan -> kind_of (c / q) = KNan.
Proof.
  spec_kind.
  destruct (Prim2SF q); try discriminate. destruct (Prim2SF c); reflexivity.
Qed.

Lemma zero_or_nan_mul_l (x y : float) : zero_or_nan x -> zero_or_nan (x * y).
Proof.
  intros [H|H].
  - apply kind_mul_zero_l. exact H.
  - right. now apply kind_mul_nan_l.
Qed.

Lemma zero_or_nan_mul_zero (x n : float) :
  kind_of n = KZero -> zero_or_nan (x * n).
Proof. apply kind_mul_zero_r. Qed.

Lemma zero_or_nan_zero (n : float) : kind_of n = KZero -> zero_or_nan n.
Proof. now left. Qed.

(** A sum over the diameter whose terms vanish with [nd] is a zero on a
    spectrum of zeros. *)
Lemma sum_over_diameter_zero (term : float -> float -> float -> float)
    (nd : labelled float) (diameter delta_D : list float) :
  (forall d n w, kind_of n = KZero -> zero_or_nan (term d n w)) ->
  Forall (fun b => is_zero (snd b) = true) nd ->
  kind_of (sum_over_diameter term nd diameter delta_D) = KZero.
Proof.
  intros Hterm Hnd. unfold sum_over_diameter. apply nansum_zeros.
  apply Forall_forall. intros y Hy.
  apply in_map_iff in Hy. destruct Hy as [[k y'] [<- Hin]].
  apply in_join in Hin. destruct Hin as [[d w] [n [_ [Hn ->]]]].
  apply lookup_in in Hn. destruct Hn as [k' Hn].
  rewrite Forall_forall in Hnd. specialize (Hnd _ Hn). cbn in *.
  apply Hterm. now apply is_zero_kind.
Qed.

(** C4: on a spectrum that is zero in every bin, and with a [pow] that
    gives NaN on a NaN base, the integrator returns: R, W, N_T and Z are
    zero, D_m, a quotient of two zeros, is NaN, and so is N_w. *)
Theorem bulk_of_zero_spectrum (fpow : float -> float -> float)
    (nd : labelled float) (diameter : list float) :
  is_nan (fpow nan 4) = true ->
  diameter <> [] ->
  Forall (fun b => is_zero (snd b) = true) nd ->
  exists out,
    calculate_parameters_dsd fpow nd diameter = Ok out /\
    is_zero (R_ out) = true /\ is_zero (W_ out) = true /\
    is_zero (N_T out) = true /\ is_zero (Z_ out) = true /\
    is_nan (D_m out) = true /\ is_nan (N_w out) = true.
Proof.
  intros Hpow Hd Hnd.
  destruct (bin_widths_ok diameter Hd) as [delta_D [Hw _]].
  unfold calculate_parameters_dsd. rewrite Hw. cbn [bind].
  eexists. split; [reflexivity|]. cbn [R_ W_ N_T Z_ D_m N_w].
  set (sum := fun term => sum_over_diameter term nd diameter delta_D).
  assert (HR : kind_of (sum (fun d n w =>
                fpow d 3 * (17.67 * fpow (d / 10) 0.67) * n * w)) = KZero).
  { apply sum_over_diameter_zero; [|exact Hnd]. intros d n w Hn.
    now apply zero_or_nan_mul_l, zero_or_nan_mul_zero. }
  assert (H3 : kind_of (sum (fun d n w => fpow d 3 * n * w)) = KZero).
  { apply sum_over_diameter_zero; [|exact Hnd]. intros d n w Hn.
    now apply zero_or_nan_mul_l, zero_or_nan_mul_zero. }
  assert (H0 : kind_of (sum (fun d n w => n * w)) = KZero).
  { apply sum_over_diameter_zero; [|exact Hnd]. intros d n w Hn.
    now apply zero_or_nan_mul_l, zero_or_nan_zero. }
  assert (H6 : kind_of (sum (fun d n w => fpow d 6 * n * w)) = KZero).
  { apply sum_over_diameter_zero; [|exact Hnd]. intros d n w Hn.
    now apply zero_or_nan_mul_l, zero_or_nan_mul_zero. }
  assert (H4 : kind_of (sum (fun d n w => fpow d 4 * n * w)) = KZero).
  { apply sum_over_diameter_zero; [|exact Hnd]. intros d n w Hn.
    now apply zero_or_nan_mul_l, zero_or_nan_mul_zero. }
  assert (HD : is_nan (sum (fun d n w => fpow d 4 * n * w) /
                       sum (fun d n w => fpow d 3 * n * w)) = true).
  { apply is_nan_kind. rewrite (kind_div_zero _ _ H3), H4. reflexivity. }
  repeat split.
  - apply is_zero_kind. now apply kind_mul_fin_zero.
  - apply is_zero_kind. now apply kind_mul_fin_zero.
  - now apply is_zero_kind.
  - now apply is_zero_kind.
  - exact HD.
  - apply is_nan_kind, kind_mul_nan_r, kind_div_nan_r.
    unfold sum in HD. rewrite (nan_unique _ HD). now apply is_nan_kind.
Qed.

(** The spectrum of zeros on the instrument's diameters. *)
Lemma bulk_of_zero_spectrum_witness :
  exists out,
    calculate_parameters_dsd pow_by_mul
      (map (fun d => (d, 0)) diameter_classes) diameter_classes = Ok out /\
    is_zero (R_ out) = true /\ is_zero (W_ out) = true /\
    is_zero (N_T out) = true /\ is_zero (Z_ out) = true /\
    is_nan (D_m out) = true /\ is_nan (N_w out) = true.
Proof.
  apply (bulk_of_zero_spectrum pow_by_mul
           (map (fun d => (d, 0)) diameter_classes) diameter_classes).
  - reflexivity.
  - discriminate.
  - repeat constructor.
Defined.

(** ** C2: [time_break] *)

(** C2: the tolerance that splits the groups is ten minutes, and the result
    of [get_events] is the same for any two values of [time_break]. *)
Theorem get_events_ignores_time_break
    (ds : dataset) (time_lenght time_break time_break' : Z) (tot_counts : float) :
  Pd.sec = (10 * minute)%Z /\
  get_events ds time_lenght time_break tot_counts =
  get_events ds time_lenght time_break' tot_counts.
Proof. split; reflexivity. Qed.

(** ** C7: an empty or all-missing series *)

(** Steps whose density does not exceed [tot_counts] leave [ev] empty. *)
Lemma ev_series_none (ds : dataset) (tot_counts : float) :
  Forall (fun step => (tot_counts <? nansum (snd step)) = false) ds ->
  ev_series ds tot_counts = [].
Proof.
  unfold ev_series. induction 1 as [|[t row] ds Hstep _ IH]; [reflexivity|].
  cbn [snd] in Hstep. cbn [map filter]. rewrite Hstep.
  change (negb (is_nan nan)) with false. cbn iota. exact IH.
Qed.

Lemma get_events_of_no_ev (ds : dataset) (time_lenght time_break : Z)
    (tot_counts : float) :
  ev_series ds tot_counts = [] ->
  get_events ds time_lenght time_break tot_counts = ([], []).
Proof. intros H. unfold get_events. rewrite H. reflexivity. Qed.

Lemma zero_not_above (tot_counts : float) :
  (0 <=? tot_counts) = true -> (tot_counts <? 0) = false.
Proof.
  rewrite leb_spec, ltb_spec. change (Prim2SF 0) with (S754_zero false).
  destruct (Prim2SF tot_counts) as [s|s| |s m e]; cbn;
    try destruct s; try reflexivity; discriminate.
Qed.

Lemma nan_not_above (tot_counts x : float) :
  is_nan x = true -> (tot_counts <? x) = false.
Proof.
  intros Hx. rewrite (nan_unique x Hx), ltb_spec.
  change (Prim2SF nan) with S754_nan.
  destruct (Prim2SF tot_counts); reflexivity.
Qed.

(** A series whose densities are themselves missing gives no event,
    whatever the parameters. *)
Lemma get_events_missing_density (ds : dataset) (time_lenght time_break : Z)
    (tot_counts : float) :
  Forall (fun step => is_nan (nansum (snd step)) = true) ds ->
  get_events ds time_lenght time_break tot_counts = ([], []).
Proof.
  intros H. apply get_events_of_no_ev, ev_series_none.
  eapply Forall_impl; [|exact H]. intros step. apply nan_not_above.
Qed.

(** C7, as stated, fails: a threshold below zero keeps the steps whose
    values of [nd] are all missing, their density being 0; twelve such
    steps, one minute apart, give an event at [tot_counts = -1]. *)
Lemma get_events_all_missing_negative_threshold :
  all_missing (map (fun step => (fst step, [nan; nan])) (steady_run 0 12))
    = true /\
  get_events (map (fun step => (fst step, [nan; nan])) (steady_run 0 12))
             default_time_lenght default_time_break (-1)
  = ([1 * minute], [11 * minute])%Z.
Proof. split; vm_compute; reflexivity. Qed.

(** C7, amended: for a series with no step, or whose values of [nd] are all
    missing, and a threshold [tot_counts] that is not below zero, as the
    default 5, [get_events] returns two empty lists. *)
Theorem get_events_all_missing (ds : dataset) (time_lenght time_break : Z)
    (tot_counts : float) :
  (0 <=? tot_counts) = true ->
  all_missing ds = true ->
  get_events ds time_lenght time_break tot_counts = ([], []).
Proof.
  intros Htc Hds. apply get_events_of_no_ev, ev_series_none.
  unfold all_missing in Hds. rewrite forallb_forall in Hds.
  apply Forall_forall. intros step Hin.
  rewrite (nansum_all_nan _ (Hds _ Hin)). now apply zero_not_above.
Qed.

(** Twelve steps one minute apart, [nd] missing in each, at the defaults. *)
Lemma get_events_all_missing_witness :
  get_events (map (fun step => (fst step, [nan; nan])) (steady_run 0 12))
             default_time_lenght default_time_break default_tot_counts
  = ([], []).
Proof.
  apply (get_events_all_missing
           (map (fun step => (fst step, [nan; nan])) (steady_run 0 12))
           default_time_lenght default_time_break default_tot_counts);
    reflexivity.
Defined.

(** ** C3: the length of a group *)

(** C3 fails on the first group.  The rows that are grouped are the gaps,
    one fewer than the timestamps: a first run of 11 steps has 10 rows and
    gives no event at [time_lenght = 10]; a first run of 12 steps gives an
    event that starts at its second timestamp; a later run of 11 steps has
    11 rows and gives an event from its first timestamp to its last. *)
Theorem get_events_first_run_short_by_one :
  get_events (steady_run 0 11) 10 5 5 = ([], []) /\
  get_events (steady_run 0 12) 10 5 5 = ([1 * minute], [11 * minute])%Z /\
  get_events (steady_run 0 3 ++ steady_run (40 * minute) 11) 10 5 5
    = ([40 * minute], [50 * minute])%Z.
Proof. repeat split; vm_compute; reflexivity. Qed.

(** The first run in general: its rows are its timestamps but the first. *)

Lemma diff_time_labels (ts : list Z) : map fst (Pd.diff_time ts) = tl ts.
Proof.
  induction ts as [|t0 [|t1 ts] IH]; [reflexivity | reflexivity |].
  cbn [Pd.diff_time map fst tl] in *. now rewrite IH.
Qed.

Lemma cumsum_no_break (acc : Z) (a : list (Z * Z)) :
  forallb (fun r => negb (Pd.sec <=? snd r)%Z) a = true ->
  Pd.cumsum acc (map (fun '(t, gap) => (t, (Pd.sec <=? gap)%Z)) a) =
  map (fun r => (fst r, acc)) a.
Proof.
  induction a as [|[t gap] a IH]; [reflexivity|].
  cbn [forallb map Pd.cumsum fst snd]. rewrite andb_true_iff, negb_true_iff.
  intros [-> Ha]. now rewrite IH.
Qed.

Lemma keys_constant (acc : Z) (a : list (Z * Z)) :
  a <> [] -> Pd.keys (map (fun r => (fst r, acc)) a) = [acc].
Proof.
  unfold Pd.keys. induction a as [|r [|r' a] IH]; [congruence | reflexivity |].
  intros _. cbn [map fold_right snd] in *. rewrite IH by discriminate.
  cbn. now rewrite Z.ltb_irrefl, Z.eqb_refl.
Qed.

Lemma filter_constant_key (acc : Z) (a : list (Z * Z)) :
  filter (fun r => (snd r =? acc)%Z) (map (fun r => (fst r, acc)) a) =
  map (fun r => (fst r, acc)) a.
Proof.
  induction a as [|r a IH]; [reflexivity|].
  cbn [map filter snd]. now rewrite Z.eqb_refl, IH.
Qed.

Lemma groupby_constant (acc : Z) (a : list (Z * Z)) :
  a <> [] ->
  Pd.groupby (map (fun r => (fst r, acc)) a) = [(acc, map fst a)].
Proof.
  intros Ha. unfold Pd.groupby. rewrite (keys_constant acc a Ha).
  cbn [map]. rewrite filter_constant_key, map_map. reflexivity.
Qed.

Lemma event_groups_single_run (ev : list (Z * float)) :
  no_break (map fst ev) = true ->
  event_groups ev =
    match tl (map fst ev) with
    | [] => []
    | idx => [(0%Z, idx)]
    end.
Proof.
  unfold no_break, event_groups. intros Hrun.
  rewrite (cumsum_no_break _ _ Hrun). rewrite <- diff_time_labels.
  destruct (Pd.diff_time (map fst ev)) as [|r a] eqn:E; [reflexivity|].
  rewrite groupby_constant by discriminate. reflexivity.
Qed.

Lemma above_not_nan (tot_counts x : float) :
  (tot_counts <? x) = true -> is_nan x = false.
Proof.
  intros H. destruct (is_nan x) eqn:E; [|reflexivity].
  rewrite (nan_not_above tot_counts x E) in H. discriminate.
Qed.

Lemma ev_series_all (ds : dataset) (tot_counts : float) :
  Forall (fun step => (tot_counts <? nansum (snd step)) = true) ds ->
  map fst (ev_series ds tot_counts) = map fst ds.
Proof.
  unfold ev_series. induction 1 as [|[t row] ds Hstep _ IH]; [reflexivity|].
  cbn [snd] in Hstep. cbn [map filter]. rewrite Hstep.
  rewrite (above_not_nan _ _ Hstep). cbn [negb map fst]. now rewrite IH.
Qed.

(** A series that is one run, every step of which exceeds the threshold,
    gives an event exactly when it has more than [time_lenght + 1] steps,
    and the event starts at the earliest timestamp after the first. *)
Lemma get_events_single_run (ds : dataset) (time_lenght time_break : Z)
    (tot_counts : float) :
  Forall (fun step => (tot_counts <? nansum (snd step)) = true) ds ->
  no_break (map fst ds) = true ->
  get_events ds time_lenght time_break tot_counts =
    match tl (map fst ds) with
    | [] => ([], [])
    | idx =>
        if (time_lenght <? Z.of_nat (length ds) - 1)%Z
        then ([Pd.index_min idx], [Pd.index_max idx])
        else ([], [])
    end.
Proof.
  intros Hall Hrun. unfold get_events.
  pose proof (ev_series_all ds tot_counts Hall) as Hev.
  rewrite event_groups_single_run by now rewrite Hev.
  rewrite Hev.
  assert (Hlen : length ds = length (map fst ds)) by now rewrite length_map.
  rewrite Hlen.
  destruct (map fst ds) as [|t0 [|t1 idx]]; [reflexivity | reflexivity |].
  cbn [tl filter snd].
  replace (Z.of_nat (length (t0 :: t1 :: idx)) - 1)%Z
    with (Z.of_nat (length (t1 :: idx))) by (cbn [length]; lia).
  destruct (time_lenght <? Z.of_nat (length (t1 :: idx)))%Z; reflexivity.
Qed.

(** * Further properties *)

(** ** Signs of binary64 results *)

Lemma iter_pos_invariant {A : Type} (P : A -> Prop) (f : A -> A) :
  (forall a, P a -> P (f a)) ->
  forall (n : positive) (a : A), P a -> P (SpecFloat.iter_pos f n a).
Proof.
  intros Hf. induction n as [n IH|n IH|]; intros a Ha; cbn; auto.
Qed.

Lemma shr_1_nonneg (mrs : shr_record) :
  (0 <= shr_m mrs)%Z -> (0 <= shr_m (shr_1 mrs))%Z.
Proof.
  destruct mrs as [m r s]. destruct m as [|[p|p|]|p]; cbn; lia.
Qed.

Lemma shr_fexp_nonneg (p e : Z) (m x : Z) (l : location) :
  (0 <= m)%Z -> (0 <= shr_m (fst (shr_fexp p e m x l)))%Z.
Proof.
  intros Hm. unfold shr_fexp, shr.
  assert (H0 : (0 <= shr_m (shr_record_of_loc m l))%Z)
    by (destruct l as [|[]]; exact Hm).
  destruct (fexp p e (Zdigits2 m + x) - x)%Z; cbn [fst]; try exact H0.
  apply (iter_pos_invariant (fun mrs => (0 <= shr_m mrs)%Z));
    [apply shr_1_nonneg | exact H0].
Qed.

Lemma round_nearest_even_nonneg (m : Z) (l : location) :
  (0 <= m)%Z -> (0 <= round_nearest_even m l)%Z.
Proof.
  intros Hm. destruct l as [|[]]; cbn; try lia. destruct (Z.even m); lia.
Qed.

(** A rounded value carries the sign it is given, and is not NaN. *)
Lemma binary_round_aux_sign (p e : Z) (s : bool) (m x : Z) (l : location) :
  (0 <= m)%Z ->
  SFsign (binary_round_aux p e s m x l) = Some s.
Proof.
  intros Hm. unfold binary_round_aux.
  pose proof (shr_fexp_nonneg p e m x l Hm) as H1.
  destruct (shr_fexp p e m x l) as [mrs' e']. cbn [fst] in H1.
  pose proof (shr_fexp_nonneg p e _ e' loc_Exact
                (round_nearest_even_nonneg _ (loc_of_shr_record mrs') H1)) as H2.
  destruct (shr_fexp p e _ e' loc_Exact) as [mrs'' e'']. cbn [fst] in H2.
  destruct (shr_m mrs'') as [|q|q]; [reflexivity| |lia].
  destruct (e'' <=? e - p)%Z; reflexivity.
Qed.

Lemma SFmul_sign (x y : spec_float) (sx sy : bool) :
  SFsign x = Some sx -> SFsign y = Some sy ->
  SFsign (SF64mul x y) = Some (xorb sx sy) \/ SF64mul x y = S754_nan.
Proof.
  destruct x as [s|s| |s m e]; try discriminate; intros [= <-];
    destruct y as [s'|s'| |s' m' e']; try discriminate; intros [= <-];
    cbn; auto.
  left. apply binary_round_aux_sign. lia.
Qed.

Lemma SFdiv_sign (x y : spec_float) (sx sy : bool) :
  SFsign x = Some sx -> SFsign y = Some sy ->
  SFsign (SF64div x y) = Some (xorb sx sy) \/ SF64div x y = S754_nan.
Proof.
  destruct x as [s|s| |s m e]; try discriminate; intros [= <-];
    destruct y as [s'|s'| |s' m' e']; try discriminate; intros [= <-];
    cbn [SF64div SFdiv]; auto.
  left. unfold SF64div, SFdiv.
  destruct (SFdiv_core_binary prec emax (Z.pos m) e (Z.pos m') e')
    as [[mz ez] lz] eqn:E.
  apply binary_round_aux_sign.
  unfold SFdiv_core_binary in E.
  set (m1 := match (e - e' - _)%Z with
             | Z0 => Z.pos m | Zpos _ => _ | Zneg _ => 0%Z end) in E.
  assert (H1 : (0 <= m1)%Z).
  { subst m1. destruct (e - e' - _)%Z; try lia. apply Z.shiftl_nonneg. lia. }
  pose proof (Z.div_pos m1 (Z.pos m') H1 ltac:(lia)) as Hq.
  unfold Z.div in Hq. destruct (Z.div_eucl m1 (Z.pos m')) as [q r].
  injection E as <- _ _. exact Hq.
Qed.

Lemma SFadd_nonneg (x y : spec_float) :
  SFnonneg x -> SFnonneg y -> SFnonneg (SF64add x y).
Proof.
  unfold SFnonneg, SF64add.
  destruct x as [s|s| |s m e]; try contradiction;
    destruct y as [s'|s'| |s' m' e']; try contradiction;
    intros Hx Hy; subst; cbn [SFadd]; try exact I; try reflexivity.
  - destruct s, s'; exact I.
  - cbn [cond_Zopp Z.add binary_normalize]. unfold binary_round.
    destruct (shl_align _ _ _) as [mz ez].
    pose proof (binary_round_aux_sign prec emax false (Z.pos mz) ez loc_Exact
                  ltac:(lia)) as H.
    destruct (binary_round_aux _ _ _ _ _ _); cbn in H |- *;
      try exact I; congruence.
Qed.

Lemma SFsign_nonneg (y : spec_float) : SFsign y = Some false -> SFnonneg y.
Proof. destruct y; cbn; intros [= ->] || discriminate; auto. Qed.

Lemma SFdiv_nonneg (x y : spec_float) :
  SFnonneg x -> SFsign y = Some false ->
  SFnonneg (SF64div x y) \/ SF64div x y = S754_nan.
Proof.
  intros Hx Hy.
  destruct x as [s|s| |s m e]; try contradiction;
    destruct y as [s'|s'| |s' m' e']; try discriminate;
    cbn in Hx, Hy; injection Hy as ->; subst;
    try (left; exact I); try (left; reflexivity); try (right; reflexivity).
  left. apply SFsign_nonneg.
  destruct (SFdiv_sign (S754_finite false m e) (S754_finite false m' e')
              false false eq_refl eq_refl) as [H|H]; [exact H|].
  exfalso. revert H. unfold SF64div, SFdiv.
  destruct (SFdiv_core_binary prec emax (Z.pos m) e (Z.pos m') e')
    as [[mz ez] lz] eqn:E.
  intros H.
  assert (Hs : SFsign (binary_round_aux prec emax (xorb false false) mz ez lz)
               = Some (xorb false false)).
  { apply binary_round_aux_sign.
    unfold SFdiv_core_binary in E.
    set (m1 := match (e - e' - _)%Z with
               | Z0 => Z.pos m | Zpos _ => _ | Zneg _ => 0%Z end) in E.
    assert (H1 : (0 <= m1)%Z).
    { subst m1. destruct (e - e' - _)%Z; try lia. apply Z.shiftl_nonneg. lia. }
    pose proof (Z.div_pos m1 (Z.pos m') H1 ltac:(lia)) as Hq.
    unfold Z.div in Hq. destruct (Z.div_eucl m1 (Z.pos m')) as [q r].
    injection E as <- _ _. exact Hq. }
  rewrite H in Hs. discriminate.
Qed.

Lemma SFmul_nonneg (x y : spec_float) :
  SFnonneg x -> SFnonneg y ->
  SFnonneg (SF64mul x y) \/ SF64mul x y = S754_nan.
Proof.
  intros Hx Hy.
  destruct x as [s|s| |s m e]; try contradiction;
    destruct y as [s'|s'| |s' m' e']; try contradiction;
    cbn in Hx, Hy; subst;
    try (left; exact I); try (left; reflexivity); try (right; reflexivity).
  left. apply SFsign_nonneg. unfold SF64mul, SFmul.
  apply (binary_round_aux_sign prec emax (xorb false false)). lia.
Qed.

Lemma leb_zero_nonneg (x : float) : (0 <=? x) = true <-> SFnonneg (Prim2SF x).
Proof.
  rewrite leb_spec. change (Prim2SF 0) with (S754_zero false).
  destruct (Prim2SF x) as [s|s| |s m e]; cbn; try destruct s;
    split; intros H; try reflexivity; try exact I; try discriminate;
    try contradiction.
Qed.

Lemma ltb_zero_sign (x : float) :
  (0 <? x) = true -> SFsign (Prim2SF x) = Some false.
Proof.
  rewrite ltb_spec. change (Prim2SF 0) with (S754_zero false).
  destruct (Prim2SF x) as [s|s| |s m e]; cbn; try destruct s;
    intros H; try reflexivity; discriminate.
Qed.

Lemma nonneg_or_nan_spec (x : float) :
  nonneg_or_nan x = true <-> SFnonneg (Prim2SF x) \/ Prim2SF x = S754_nan.
Proof.
  unfold nonneg_or_nan. rewrite orb_true_iff, leb_zero_nonneg, is_nan_kind.
  unfold kind_of. destruct (Prim2SF x); split; intros [H|H]; auto;
    try discriminate; try contradiction.
Qed.

Lemma div_nonneg_or_nan (c q : float) :
  nonneg_or_nan c = true -> (0 <? q) = true -> nonneg_or_nan (c / q) = true.
Proof.
  rewrite !nonneg_or_nan_spec, div_spec. intros [Hc|Hc] Hq.
  - apply SFdiv_nonneg; [exact Hc | now apply ltb_zero_sign].
  - right. rewrite Hc. reflexivity.
Qed.

Lemma mul_nonneg_or_nan (x y : float) :
  nonneg_or_nan x = true -> nonneg_or_nan y = true ->
  nonneg_or_nan (x * y) = true.
Proof.
  rewrite !nonneg_or_nan_spec, mul_spec. intros [Hx|Hx] [Hy|Hy].
  - now apply SFmul_nonneg.
  - right. rewrite Hy. unfold SF64mul. destruct (Prim2SF x); reflexivity.
  - right. rewrite Hx. reflexivity.
  - right. rewrite Hx. reflexivity.
Qed.

Lemma add_nan_to_zero_nonneg (acc x : float) :
  (0 <=? acc) = true -> nonneg_or_nan x = true ->
  (0 <=? acc + nan_to_zero x) = true.
Proof.
  rewrite !leb_zero_nonneg, add_spec. intros Hacc Hx.
  apply SFadd_nonneg; [exact Hacc|].
  unfold nan_to_zero. destruct (is_nan x) eqn:E; [exact I|].
  apply nonneg_or_nan_spec in Hx. destruct Hx as [Hx|Hx]; [exact Hx|].
  apply is_nan_false_kind in E. unfold kind_of in E. rewrite Hx in E.
  congruence.
Qed.

Lemma fold_add_nonneg (l : list float) (acc : float) :
  (0 <=? acc) = true -> forallb nonneg_or_nan l = true ->
  (0 <=? fold_left add (map nan_to_zero l) acc) = true.
Proof.
  revert acc. induction l as [|x l IH]; intros acc Hacc;
    cbn [forallb map fold_left]; [intros _; exact Hacc|].
  rewrite andb_true_iff. intros [Hx Hl].
  apply IH; [|exact Hl]. now apply add_nan_to_zero_nonneg.
Qed.

(** A sum that skips NaN, of terms none of which is below zero, is not
    below zero, and so not NaN. *)
Lemma nansum_nonneg (l : list float) :
  forallb nonneg_or_nan l = true -> (0 <=? nansum l) = true.
Proof. apply fold_add_nonneg. reflexivity. Qed.

Lemma leb_zero_not_nan (x : float) : (0 <=? x) = true -> is_nan x = false.
Proof.
  rewrite leb_zero_nonneg. intros H. apply is_nan_false_kind.
  unfold kind_of. destruct (Prim2SF x); try discriminate. contradiction.
Qed.

Lemma kind_div_nan_l (c q : float) : kind_of c = KNan -> kind_of (c / q) = KNan.
Proof.
  spec_kind. destruct (Prim2SF c); try discriminate. reflexivity.
Qed.

Lemma zero_or_nan_spec (x : float) :
  is_zero x || is_nan x = true <-> zero_or_nan x.
Proof.
  unfold zero_or_nan. now rewrite orb_true_iff, is_zero_kind, is_nan_kind.
Qed.

Lemma zero_or_nan_div (c q : float) : zero_or_nan c -> zero_or_nan (c / q).
Proof.
  intros [Hc|Hc]; unfold zero_or_nan.
  - rewrite (kind_zero_div c q Hc). destruct (kind_of q); auto.
  - right. now apply kind_div_nan_l.
Qed.

Lemma zero_or_nan_mul_r (x n : float) : zero_or_nan n -> zero_or_nan (x * n).
Proof.
  intros [Hn|Hn].
  - now apply kind_mul_zero_r.
  - right. now apply kind_mul_nan_r.
Qed.

(** ** Rounding in binary64 keeps the order *)

Lemma bpow_pos (e : Z) : (0 < bpow e)%R.
Proof. apply powerRZ_lt. lra. Qed.

Lemma bpow_add (e1 e2 : Z) : bpow (e1 + e2) = (bpow e1 * bpow e2)%R.
Proof. apply powerRZ_add. lra. Qed.

Lemma bpow_0 : bpow 0 = 1%R.
Proof. reflexivity. Qed.

Lemma bpow_1 : bpow 1 = 2%R.
Proof. unfold bpow, powerRZ. simpl. lra. Qed.

Lemma bpow_opp (e : Z) : (bpow e * bpow (- e) = 1)%R.
Proof. rewrite <- bpow_add, Z.add_opp_diag_r. reflexivity. Qed.

Lemma bpow_IZR (k : Z) : (0 <= k)%Z -> bpow k = IZR (2 ^ k).
Proof.
  intros Hk. unfold bpow. rewrite <- (Z2Nat.id k Hk) at 1.
  rewrite <- pow_powerRZ, pow_IZR, Z2Nat.id by exact Hk. reflexivity.
Qed.

Lemma bpow_le (e1 e2 : Z) : (e1 <= e2)%Z -> (bpow e1 <= bpow e2)%R.
Proof.
  intros H. replace e2 with (e1 + (e2 - e1))%Z by lia.
  rewrite bpow_add, (bpow_IZR (e2 - e1)) by lia.
  assert (H1 : (1 <= 2 ^ (e2 - e1))%Z)
    by (pose proof (Z.pow_pos_nonneg 2 (e2 - e1)); lia).
  apply IZR_le in H1. pose proof (bpow_pos e1). nra.
Qed.

Lemma digits2_pos_bounds (p : positive) :
  (2 ^ (Z.pos (digits2_pos p) - 1) <= Z.pos p < 2 ^ Z.pos (digits2_pos p))%Z.
Proof.
  induction p as [p IH|p IH|]; cbn [digits2_pos].
  - rewrite Pos2Z.inj_succ, Z.pow_succ_r by lia.
    replace (Z.succ (Z.pos (digits2_pos p)) - 1)%Z
      with (Z.succ (Z.pos (digits2_pos p) - 1)) by lia.
    rewrite Z.pow_succ_r by lia. lia.
  - rewrite Pos2Z.inj_succ, Z.pow_succ_r by lia.
    replace (Z.succ (Z.pos (digits2_pos p)) - 1)%Z
      with (Z.succ (Z.pos (digits2_pos p) - 1)) by lia.
    rewrite Z.pow_succ_r by lia. lia.
  - cbn. lia.
Qed.

Lemma Zdigits2_bounds (m : Z) :
  (0 <= m)%Z ->
  (m < 2 ^ Zdigits2 m)%Z /\ (0 <= Zdigits2 m)%Z /\
  ((0 < m)%Z -> (2 ^ (Zdigits2 m - 1) <= m)%Z /\ (1 <= Zdigits2 m)%Z).
Proof.
  destruct m as [|p|p]; intros Hm; [| |lia].
  - cbn. repeat split; lia.
  - cbn [Zdigits2]. pose proof (digits2_pos_bounds p). repeat split; lia.
Qed.

(** ** One step of the shift *)

Lemma shr_1_represents (mrs : shr_record) (x : R) :
  represents mrs x -> represents (shr_1 mrs) (x / 2)%R.
Proof.
  unfold represents. destruct mrs as [m r s]. cbn [shr_m shr_r shr_s].
  intros [Hm Hf]. destruct m as [|[p|p|]|p]; [| | | |lia]; cbn [shr_1 shr_m shr_r shr_s].
  - split; [lia|]. destruct r, s; cbn in *; lra.
  - split; [lia|]. rewrite Pos2Z.inj_xI, plus_IZR, mult_IZR in Hf.
    destruct r, s; cbn in *; lra.
  - split; [lia|]. rewrite Pos2Z.inj_xO, mult_IZR in Hf.
    destruct r, s; cbn in *; lra.
  - split; [lia|]. destruct r, s; cbn in *; lra.
Qed.

Lemma iter_shr_1_represents (n : positive) :
  forall (mrs : shr_record) (x : R),
    represents mrs x ->
    represents (SpecFloat.iter_pos shr_1 n mrs) (x * bpow (- Z.pos n))%R.
Proof.
  assert (Hhalf : bpow (-1) = (1 / 2)%R)
    by (unfold bpow, powerRZ; simpl; lra).
  induction n as [n IH|n IH|]; intros mrs x H; cbn [SpecFloat.iter_pos].
  - apply shr_1_represents in H. apply IH, IH in H.
    replace (x * bpow (- Z.pos n~1))%R
      with (x / 2 * bpow (- Z.pos n) * bpow (- Z.pos n))%R; [exact H|].
    replace (- Z.pos n~1)%Z with (-1 + (- Z.pos n + - Z.pos n))%Z by lia.
    rewrite !bpow_add, Hhalf. lra.
  - apply IH, IH in H.
    replace (x * bpow (- Z.pos n~0))%R
      with (x * bpow (- Z.pos n) * bpow (- Z.pos n))%R; [exact H|].
    replace (- Z.pos n~0)%Z with (- Z.pos n + - Z.pos n)%Z by lia.
    rewrite !bpow_add. lra.
  - apply shr_1_represents in H.
    replace (x * bpow (Z.opp (Z.pos 1)))%R with (x / 2)%R; [exact H|].
    change (Z.opp (Z.pos 1)) with (Z.neg 1). rewrite Hhalf. lra.
Qed.

Lemma represents_bounds (mrs : shr_record) (x : R) :
  represents mrs x -> (IZR (shr_m mrs) <= x < IZR (shr_m mrs) + 1)%R.
Proof.
  unfold represents. destruct mrs as [m [] []]; cbn; intros [_ H]; lra.
Qed.

Lemma rne_bounds (mrs : shr_record) :
  (shr_m mrs <= rne mrs <= shr_m mrs + 1)%Z.
Proof.
  unfold rne. destruct mrs as [m [] []]; cbn; try lia.
  destruct (Z.even m); lia.
Qed.

(** Rounding to nearest keeps the order of two values on one grid. *)
Lemma rne_monotone (mrs1 mrs2 : shr_record) (x1 x2 : R) :
  represents mrs1 x1 -> represents mrs2 x2 -> (x1 <= x2)%R ->
  (rne mrs1 <= rne mrs2)%Z.
Proof.
  intros H1 H2 Hx.
  pose proof (represents_bounds _ _ H1) as B1.
  pose proof (represents_bounds _ _ H2) as B2.
  pose proof (rne_bounds mrs1) as R1. pose proof (rne_bounds mrs2) as R2.
  destruct (Z.lt_trichotomy (shr_m mrs1) (shr_m mrs2)) as [Hlt|[Heq|Hgt]].
  - lia.
  - revert H1 H2 B1 B2 R1 R2. unfold rne, represents.
    destruct mrs1 as [m1 r1 s1], mrs2 as [m2 r2 s2]. cbn in Heq. subst m2.
    destruct r1, s1, r2, s2; cbn; intros [_ H1] [_ H2] B1 B2 R1 R2;
      try lia; try (exfalso; lra); destruct (Z.even m1); lia.
  - exfalso. assert (H : (shr_m mrs2 + 1 <= shr_m mrs1)%Z) by lia.
    apply IZR_le in H. rewrite plus_IZR in H. lra.
Qed.

(** ** The two shifts of [binary_round_aux] *)

Lemma fexp_eq (e : Z) : fexp prec emax e = Z.max (e - 53) (-1074).
Proof. reflexivity. Qed.

Lemma shr_m_of_loc (m : Z) (l : location) : shr_m (shr_record_of_loc m l) = m.
Proof. destruct l as [|[]]; reflexivity. Qed.

(** The first shift leaves the truncation of the value at the exponent of
    its format, when the mantissa it is given is long enough for it. *)
Lemma shr_fexp_truncates (m e : Z) (l : location) (v : R) :
  (0 <= m)%Z ->
  represents (shr_record_of_loc m l) (v * bpow (- e))%R ->
  (e <= fexp prec emax (Zdigits2 m + e))%Z ->
  truncates (fst (shr_fexp prec emax m e l)) (snd (shr_fexp prec emax m e l)) v.
Proof.
  intros Hm Hr Hpre. unfold shr_fexp, shr. rewrite fexp_eq in *.
  destruct (Zdigits2_bounds m Hm) as (Hub & Hd0 & Hlb).
  assert (Hz : m = 0%Z -> Zdigits2 m = 0%Z) by (intros ->; reflexivity).
  remember (Zdigits2 m) as d eqn:Ed.
  pose proof (represents_bounds _ _ Hr) as Hb. rewrite shr_m_of_loc in Hb.
  destruct (Z.max (d + e - 53) (-1074) - e)%Z as [|p|p] eqn:En; cbn [fst snd].
  - unfold truncates. rewrite shr_m_of_loc.
    split; [exact Hr|]. split; [lia|]. split.
    + assert (H : (2 ^ d <= 2 ^ 53)%Z) by (apply Z.pow_le_mono_r; lia). lia.
    + destruct (Z.eq_dec e (-1074)) as [He|He]; [now left|right].
      assert (Hd : d = 53%Z) by lia.
      assert (Hm0 : (0 < m)%Z) by lia.
      destruct (Hlb Hm0) as [H _]. rewrite Hd in H. exact H.
  - pose proof (iter_shr_1_represents p _ _ Hr) as Hr'.
    replace (v * bpow (- e) * bpow (- Z.pos p))%R
      with (v * bpow (- (e + Z.pos p)))%R in Hr'
      by (rewrite Z.opp_add_distr, bpow_add; lra).
    pose proof (represents_bounds _ _ Hr') as Hb'.
    set (mrs' := SpecFloat.iter_pos shr_1 p (shr_record_of_loc m l)) in *.
    assert (Hx' : (v * bpow (- (e + Z.pos p)) =
                   v * bpow (- e) * bpow (- Z.pos p))%R)
      by (rewrite Z.opp_add_distr, bpow_add; lra).
    pose proof (bpow_pos (- Z.pos p)) as Hpp.
    unfold truncates. split; [exact Hr'|]. split; [lia|]. split.
    + apply lt_IZR. rewrite <- bpow_IZR by lia.
      assert (H1 : (IZR m + 1 <= bpow d)%R).
      { rewrite bpow_IZR by lia. rewrite <- plus_IZR. apply IZR_le. lia. }
      assert (H2 : (bpow d * bpow (- Z.pos p) <= bpow 53)%R).
      { rewrite <- bpow_add. apply bpow_le. lia. }
      nra.
    + destruct (Z.eq_dec (e + Z.pos p) (-1074)) as [He|He]; [now left|right].
      assert (Hd : (Z.pos p = d - 53)%Z) by lia.
      assert (Hm0 : (0 < m)%Z) by lia.
      destruct (Hlb Hm0) as [H _].
      assert (H1 : (bpow (d - 1) <= IZR m)%R).
      { rewrite bpow_IZR by lia. apply IZR_le. exact H. }
      assert (H2 : (bpow (d - 1) * bpow (- Z.pos p) = bpow 52)%R).
      { rewrite <- bpow_add. f_equal. lia. }
      assert (H3 : (IZR (2 ^ 52) < IZR (shr_m mrs' + 1))%R).
      { rewrite <- bpow_IZR by lia. rewrite plus_IZR. nra. }
      apply lt_IZR in H3. lia.
  - lia.
Qed.

(** The second shift: a carry out of the mantissa moves the exponent by
    one, and nothing else does. *)
Lemma shr_fexp_exact (n e : Z) :
  (0 <= n <= 2 ^ 53)%Z -> (-1074 <= e)%Z ->
  (n = (2 ^ 53)%Z /\
   shr_m (fst (shr_fexp prec emax n e loc_Exact)) = (2 ^ 52)%Z /\
   snd (shr_fexp prec emax n e loc_Exact) = (e + 1)%Z) \/
  ((n < 2 ^ 53)%Z /\
   shr_m (fst (shr_fexp prec emax n e loc_Exact)) = n /\
   snd (shr_fexp prec emax n e loc_Exact) = e).
Proof.
  intros Hn He. destruct (Z.eq_dec n (2 ^ 53)) as [E|E].
  - left. split; [exact E|]. subst n. unfold shr_fexp. rewrite fexp_eq.
    change (Zdigits2 (2 ^ 53)) with 54%Z.
    replace (Z.max (54 + e - 53) (-1074) - e)%Z with 1%Z by lia.
    split; [reflexivity|]. cbn [shr snd]. reflexivity.
  - right. split; [lia|]. unfold shr_fexp, shr. rewrite fexp_eq.
    destruct (Zdigits2_bounds n ltac:(lia)) as (Hub & Hd0 & Hlb).
    assert (Hd : (Zdigits2 n <= 53)%Z).
    { destruct (Z.eq_dec n 0) as [->|Hn0]; [cbn; lia|].
      destruct (Hlb ltac:(lia)) as [H _].
      apply Z.nlt_ge. intros Hc.
      assert (H' : (2 ^ 53 <= 2 ^ (Zdigits2 n - 1))%Z)
        by (apply Z.pow_le_mono_r; lia).
      lia. }
    destruct (Z.max (Zdigits2 n + e - 53) (-1074) - e)%Z eqn:En;
      cbn [fst snd shr_record_of_loc shr_m]; try (split; reflexivity). lia.
Qed.

Lemma binary_round_aux_rounded (s : bool) (m e : Z) (l : location) :
  binary_round_aux prec emax s m e l = finish s (rounded m e l).
Proof.
  unfold binary_round_aux, rounded, finish, rne.
  destruct (shr_fexp prec emax m e l) as [mrs' e'].
  destruct (shr_fexp prec emax _ e' loc_Exact) as [mrs'' e'']. reflexivity.
Qed.

Lemma finish_leb (a b : Z * Z) :
  pair_le a b -> (0 <= fst b)%Z ->
  SFleb (finish false a) (finish false b) = true.
Proof.
  destruct a as [ma ea], b as [mb eb]. unfold pair_le, finish. cbn [fst snd].
  intros [->|(Ha & Hb & Hle)] Hb0.
  - destruct mb as [|pb|pb]; [reflexivity| |lia].
    destruct (eb <=? emax - prec)%Z; reflexivity.
  - destruct ma as [|pa|pa]; [lia| |lia]. destruct mb as [|pb|pb]; [lia| |lia].
    destruct (ea <=? emax - prec)%Z eqn:Ea, (eb <=? emax - prec)%Z eqn:Eb;
      try reflexivity.
    + unfold SFleb, SFcompare. destruct Hle as [Hlt|[-> Hm]].
      * apply Z.compare_lt_iff in Hlt. now rewrite Hlt.
      * rewrite Z.compare_refl. fold (Pos.compare pa pb).
        destruct (pa ?= pb)%positive eqn:C; try reflexivity.
        apply Pos.compare_gt_iff in C. lia.
    + apply Z.leb_gt in Ea. apply Z.leb_le in Eb. lia.
Qed.

(** Rounding keeps the order of two values. *)
Lemma rounded_monotone (m1 e1 : Z) (l1 : location) (v1 : R)
    (m2 e2 : Z) (l2 : location) (v2 : R) :
  (0 <= m1)%Z ->
  represents (shr_record_of_loc m1 l1) (v1 * bpow (- e1))%R ->
  (e1 <= fexp prec emax (Zdigits2 m1 + e1))%Z ->
  (0 <= m2)%Z ->
  represents (shr_record_of_loc m2 l2) (v2 * bpow (- e2))%R ->
  (e2 <= fexp prec emax (Zdigits2 m2 + e2))%Z ->
  (v1 <= v2)%R ->
  pair_le (rounded m1 e1 l1) (rounded m2 e2 l2) /\
  (0 <= fst (rounded m2 e2 l2))%Z.
Proof.
  intros Hm1 Hr1 Hp1 Hm2 Hr2 Hp2 Hv.
  pose proof (shr_fexp_truncates m1 e1 l1 v1 Hm1 Hr1 Hp1) as T1.
  pose proof (shr_fexp_truncates m2 e2 l2 v2 Hm2 Hr2 Hp2) as T2.
  unfold rounded.
  destruct (shr_fexp prec emax m1 e1 l1) as [mrs1 e1'].
  destruct (shr_fexp prec emax m2 e2 l2) as [mrs2 e2'].
  cbn [fst snd] in T1, T2.
  destruct T1 as (R1 & He1 & Hub1 & Hlb1), T2 as (R2 & He2 & Hub2 & Hlb2).
  pose proof (rne_bounds mrs1) as N1. pose proof (rne_bounds mrs2) as N2.
  pose proof (represents_bounds _ _ R1) as B1.
  pose proof (represents_bounds _ _ R2) as B2.
  assert (P1 : (0 <= shr_m mrs1)%Z) by apply R1.
  assert (P2 : (0 <= shr_m mrs2)%Z) by apply R2.
  assert (Hpow : (2 ^ 53 = 2 * 2 ^ 52)%Z) by reflexivity.
  assert (Hpos : (0 < 2 ^ 52)%Z) by reflexivity.
  assert (Key : ((e1' < e2')%Z /\ (2 ^ 52 <= shr_m mrs2)%Z) \/
                (e1' = e2' /\ (rne mrs1 <= rne mrs2)%Z)).
  { destruct (Z.lt_trichotomy e1' e2') as [Hlt|[Heq|Hgt]].
    - left. split; [exact Hlt|]. destruct Hlb2; [lia|assumption].
    - right. split; [exact Heq|]. subst e2'.
      apply (rne_monotone mrs1 mrs2 _ _ R1 R2).
      apply Rmult_le_compat_r; [apply Rlt_le, bpow_pos | exact Hv].
    - exfalso. assert (Hl : (2 ^ 52 <= shr_m mrs1)%Z) by (destruct Hlb1; [lia|assumption]).
      apply IZR_le in Hl.
      assert (Hu : (shr_m mrs2 + 1 <= 2 ^ 53)%Z) by lia.
      apply IZR_le in Hu. rewrite plus_IZR, Hpow, mult_IZR in Hu.
      assert (E1 : (v1 = v1 * bpow (- e1') * bpow e1')%R).
      { rewrite Rmult_assoc, (Rmult_comm (bpow (- e1'))), bpow_opp. lra. }
      assert (E2 : (v2 = v2 * bpow (- e2') * bpow e2')%R).
      { rewrite Rmult_assoc, (Rmult_comm (bpow (- e2'))), bpow_opp. lra. }
      assert (Hb : (2 * bpow e2' <= bpow e1')%R).
      { rewrite <- bpow_1, <- bpow_add. apply bpow_le. lia. }
      pose proof (bpow_pos e2') as Hb2.
      assert (Hp52 : (0 < IZR (2 ^ 52))%R) by (apply IZR_lt; exact Hpos).
      set (x1 := (v1 * bpow (- e1'))%R) in *.
      set (x2 := (v2 * bpow (- e2'))%R) in *.
      set (P := IZR (2 ^ 52)) in *.
      assert (H1 : (P * (2 * bpow e2') <= x1 * bpow e1')%R).
      { apply Rmult_le_compat; lra. }
      assert (H2 : (x2 * bpow e2' < 2 * P * bpow e2')%R).
      { apply Rmult_lt_compat_r; lra. }
      lra. }
  destruct (shr_fexp_exact (rne mrs1) e1' ltac:(lia) He1)
    as [(E1 & Em1 & Ee1)|(E1 & Em1 & Ee1)];
  destruct (shr_fexp_exact (rne mrs2) e2' ltac:(lia) He2)
    as [(E2 & Em2 & Ee2)|(E2 & Em2 & Ee2)];
  destruct (shr_fexp prec emax (rne mrs1) e1' loc_Exact) as [mrs1'' e1''];
  destruct (shr_fexp prec emax (rne mrs2) e2' loc_Exact) as [mrs2'' e2''];
  cbn [fst snd] in *; unfold pair_le; cbn [fst snd];
  (split; [|lia]);
  (destruct (Z.eq_dec (shr_m mrs1'') 0) as [Z1|Z1]; [left; exact Z1|right]);
  lia.
Qed.

Lemma binary_round_aux_monotone (m1 e1 : Z) (l1 : location) (v1 : R)
    (m2 e2 : Z) (l2 : location) (v2 : R) :
  (0 <= m1)%Z ->
  represents (shr_record_of_loc m1 l1) (v1 * bpow (- e1))%R ->
  (e1 <= fexp prec emax (Zdigits2 m1 + e1))%Z ->
  (0 <= m2)%Z ->
  represents (shr_record_of_loc m2 l2) (v2 * bpow (- e2))%R ->
  (e2 <= fexp prec emax (Zdigits2 m2 + e2))%Z ->
  (v1 <= v2)%R ->
  SFleb (binary_round_aux prec emax false m1 e1 l1)
        (binary_round_aux prec emax false m2 e2 l2) = true.
Proof.
  intros Hm1 Hr1 Hp1 Hm2 Hr2 Hp2 Hv. rewrite !binary_round_aux_rounded.
  destruct (rounded_monotone m1 e1 l1 v1 m2 e2 l2 v2) as [H1 H2]; try assumption.
  now apply finish_leb.
Qed.

(** ** Values of binary64 numbers *)

Lemma value_pos (m : positive) (e : Z) : (0 < value m e)%R.
Proof.
  unfold value. apply Rmult_lt_0_compat; [|apply bpow_pos].
  apply IZR_lt. lia.
Qed.

(** A number of the format has 53 digits, or the least exponent. *)
Lemma bounded_canonical (m : positive) (e : Z) :
  SpecFloat.bounded prec emax m e = true ->
  (-1074 <= e)%Z /\ (Z.pos m < 2 ^ 53)%Z /\
  (e = (-1074)%Z \/ (2 ^ 52 <= Z.pos m)%Z) /\
  (Z.pos (digits2_pos m) = 53%Z \/ e = (-1074)%Z).
Proof.
  unfold SpecFloat.bounded, canonical_mantissa. rewrite fexp_eq.
  intros H. apply andb_true_iff in H. destruct H as [H _].
  apply Z.eqb_eq in H. pose proof (digits2_pos_bounds m) as [Hl Hu].
  split; [lia|]. split; [|split].
  - assert (H' : (2 ^ Z.pos (digits2_pos m) <= 2 ^ 53)%Z)
      by (apply Z.pow_le_mono_r; lia).
    lia.
  - destruct (Z.eq_dec e (-1074)) as [He|He]; [now left|right].
    replace (Z.pos (digits2_pos m)) with 53%Z in Hl by lia. exact Hl.
  - lia.
Qed.

(** On numbers of the format the comparison is that of the values. *)
Lemma SFleb_value (m1 : positive) (e1 : Z) (m2 : positive) (e2 : Z) :
  SpecFloat.bounded prec emax m1 e1 = true -> SpecFloat.bounded prec emax m2 e2 = true ->
  SFleb (S754_finite false m1 e1) (S754_finite false m2 e2) = true ->
  (value m1 e1 <= value m2 e2)%R.
Proof.
  intros H1 H2. apply bounded_canonical in H1, H2.
  destruct H1 as (He1 & Hu1 & Hl1 & _), H2 as (He2 & Hu2 & Hl2 & _).
  unfold SFleb, SFcompare, value.
  destruct (e1 ?= e2)%Z eqn:C.
  - apply Z.compare_eq in C. subst e2. fold (Pos.compare m1 m2).
    destruct (m1 ?= m2)%positive eqn:Cm; try discriminate; intros _;
      (apply Rmult_le_compat_r; [apply Rlt_le, bpow_pos|]); apply IZR_le.
    + apply Pos.compare_eq in Cm. subst. lia.
    + change (m1 < m2)%positive in Cm. lia.
  - intros _. change (e1 < e2)%Z in C.
    assert (Hm2 : (2 ^ 52 <= Z.pos m2)%Z) by (destruct Hl2; [lia|assumption]).
    apply IZR_le in Hm2.
    assert (Hm1 : (Z.pos m1 <= 2 * 2 ^ 52)%Z)
      by (change (2 * 2 ^ 52)%Z with (2 ^ 53)%Z; lia).
    apply IZR_le in Hm1. rewrite mult_IZR in Hm1.
    assert (Hb : (2 * bpow e1 <= bpow e2)%R).
    { rewrite <- bpow_1, <- bpow_add. apply bpow_le. lia. }
    pose proof (bpow_pos e1) as Hb1.
    assert (Hp52 : (0 < IZR (2 ^ 52))%R) by (apply IZR_lt; reflexivity).
    set (P := IZR (2 ^ 52)) in *.
    assert (Ha : (IZR (Z.pos m1) * bpow e1 <= 2 * P * bpow e1)%R)
      by (apply Rmult_le_compat_r; lra).
    assert (Hc : (P * (2 * bpow e1) <= IZR (Z.pos m2) * bpow e2)%R)
      by (apply Rmult_le_compat; lra).
    lra.
  - discriminate.
Qed.

(** ** Multiplication *)

Lemma SFmul_monotone (mc : positive) (ec : Z) (m1 : positive) (e1 : Z)
    (m2 : positive) (e2 : Z) :
  SpecFloat.bounded prec emax mc ec = true ->
  SpecFloat.bounded prec emax m1 e1 = true -> SpecFloat.bounded prec emax m2 e2 = true ->
  SFleb (S754_finite false m1 e1) (S754_finite false m2 e2) = true ->
  SFleb (SF64mul (S754_finite false mc ec) (S754_finite false m1 e1))
        (SF64mul (S754_finite false mc ec) (S754_finite false m2 e2)) = true.
Proof.
  intros Hc H1 H2 Hle.
  pose proof (SFleb_value _ _ _ _ H1 H2 Hle) as Hv.
  unfold SF64mul, SFmul. cbn [xorb].
  assert (Hin : forall (m : positive) (e : Z),
             SpecFloat.bounded prec emax m e = true ->
             represents (shr_record_of_loc (Z.pos (mc * m)) loc_Exact)
                        (value mc ec * value m e * bpow (- (ec + e)))%R /\
             (ec + e <= fexp prec emax (Zdigits2 (Z.pos (mc * m)) + (ec + e)))%Z).
  { intros m e Hm. split.
    - unfold represents, value. cbn [shr_record_of_loc shr_m shr_r shr_s frac_ok].
      split; [lia|]. rewrite Pos2Z.inj_mul, mult_IZR.
      pose proof (bpow_opp (ec + e)) as Ho. rewrite bpow_add in Ho at 1.
      set (a := IZR (Z.pos mc)). set (b := IZR (Z.pos m)).
      replace (a * bpow ec * (b * bpow e) * bpow (- (ec + e)))%R
        with (a * b * (bpow ec * bpow e * bpow (- (ec + e))))%R by ring.
      rewrite Ho. ring.
    - rewrite fexp_eq. cbn [Zdigits2].
      apply bounded_canonical in Hc, Hm.
      destruct Hc as (Hec & _ & _ & Hdc), Hm as (Hem & _ & _ & Hdm).
      pose proof (digits2_pos_bounds mc) as [Lc Uc].
      pose proof (digits2_pos_bounds m) as [Lm Um].
      pose proof (digits2_pos_bounds (mc * m)) as [Lp Up].
      set (dc := Z.pos (digits2_pos mc)) in *.
      set (dm := Z.pos (digits2_pos m)) in *.
      set (dp := Z.pos (digits2_pos (mc * m))) in *.
      assert (Hd : (dc + dm - 2 < dp)%Z).
      { apply (Z.pow_lt_mono_r_iff 2); [lia|lia|].
        replace (dc + dm - 2)%Z with ((dc - 1) + (dm - 1))%Z by lia.
        rewrite Z.pow_add_r by lia. rewrite Pos2Z.inj_mul in Up.
        assert (0 < 2 ^ (dc - 1))%Z by (apply Z.pow_pos_nonneg; lia).
        assert (0 < 2 ^ (dm - 1))%Z by (apply Z.pow_pos_nonneg; lia).
        nia. }
      lia. }
  destruct (Hin m1 e1 H1) as [R1 P1]. destruct (Hin m2 e2 H2) as [R2 P2].
  apply (binary_round_aux_monotone _ _ _ _ _ _ _ _
           (Pos2Z.is_nonneg _) R1 P1 (Pos2Z.is_nonneg _) R2 P2).
  apply Rmult_le_compat_l; [apply Rlt_le, value_pos | exact Hv].
Qed.

(** ** Division *)

(** The place of a remainder in its interval. *)
Lemma new_location_represents (mc r q : Z) :
  (0 < mc)%Z -> (0 <= r < mc)%Z -> (0 <= q)%Z ->
  represents (shr_record_of_loc q (new_location mc r))
             (IZR q + IZR r / IZR mc)%R.
Proof.
  intros Hmc Hr Hq. unfold represents. rewrite shr_m_of_loc.
  split; [exact Hq|].
  assert (HM : (0 < IZR mc)%R) by (apply IZR_lt; exact Hmc).
  assert (Hf : (IZR r / IZR mc * IZR mc = IZR r)%R) by (field; lra).
  assert (Hr0 : (0 <= IZR r)%R) by (apply IZR_le; lia).
  assert (Hr1 : (IZR r < IZR mc)%R) by (apply IZR_lt; lia).
  replace (IZR q + IZR r / IZR mc - IZR q)%R with (IZR r / IZR mc)%R by ring.
  set (f := (IZR r / IZR mc)%R) in *.
  assert (Hf1 : (f < 1)%R) by nra.
  unfold new_location, new_location_even, new_location_odd.
  destruct (r =? 0)%Z eqn:Er0.
  { apply Z.eqb_eq in Er0. subst r.
    assert (f = 0%R) by nra.
    destruct (Z.even mc); cbn; assumption. }
  assert (Er0b := Er0). apply Z.eqb_neq in Er0.
  assert (Hrp : (1 <= IZR r)%R) by (apply IZR_le; lia).
  assert (Hf0 : (0 < f)%R) by nra.
  destruct (Z.even mc) eqn:Ev; cbn beta; rewrite Er0b.
  - destruct (2 * r ?= mc)%Z eqn:C; cbn.
    + apply Z.compare_eq in C. apply (f_equal IZR) in C.
      rewrite mult_IZR in C.
      apply Rmult_eq_reg_r with (IZR mc); [rewrite Hf; lra | lra].
    + change (2 * r < mc)%Z in C. apply IZR_lt in C.
      rewrite mult_IZR in C. split; nra.
    + apply Z.compare_gt_iff in C. apply IZR_lt in C.
      rewrite mult_IZR in C. split; nra.
  - assert (Hodd : (2 * r <> mc)%Z).
    { intros E. rewrite <- E, Z.even_mul in Ev. discriminate. }
    destruct (2 * r + 1 ?= mc)%Z eqn:C; cbn.
    + apply Z.compare_eq in C.
      assert (C' : (2 * r < mc)%Z) by lia. apply IZR_lt in C'.
      rewrite mult_IZR in C'. split; nra.
    + change (2 * r + 1 < mc)%Z in C.
      assert (C' : (2 * r < mc)%Z) by lia. apply IZR_lt in C'.
      rewrite mult_IZR in C'. split; nra.
    + apply Z.compare_gt_iff in C.
      assert (C' : (mc < 2 * r)%Z) by lia. apply IZR_lt in C'.
      rewrite mult_IZR in C'. split; nra.
Qed.

(** The truncated quotient stands for the quotient of the values, and is
    long enough for the format. *)
Lemma SFdiv_core_binary_spec (mx : positive) (ex : Z) (mc : positive) (ec : Z) :
  exists (q e' : Z) (l : location),
    SFdiv_core_binary prec emax (Z.pos mx) ex (Z.pos mc) ec = (q, e', l) /\
    (0 <= q)%Z /\
    represents (shr_record_of_loc q l)
               (value mx ex / value mc ec * bpow (- e'))%R /\
    (e' <= fexp prec emax (Zdigits2 q + e'))%Z.
Proof.
  unfold SFdiv_core_binary. cbn [Zdigits2]. rewrite !fexp_eq.
  pose proof (digits2_pos_bounds mx) as [L1 U1].
  pose proof (digits2_pos_bounds mc) as [L2 U2].
  set (d1 := Z.pos (digits2_pos mx)) in *.
  set (d2 := Z.pos (digits2_pos mc)) in *.
  set (e' := Z.min (Z.max (d1 + ex - (d2 + ec) - 53) (-1074)) (ex - ec)).
  set (s := (ex - ec - e')%Z).
  assert (Hs : (0 <= s)%Z) by (unfold s, e'; lia).
  set (m' := match s with
             | 0%Z => Z.pos mx
             | Z.pos _ => Z.shiftl (Z.pos mx) s
             | Z.neg _ => 0%Z
             end).
  assert (Hm' : m' = (Z.pos mx * 2 ^ s)%Z).
  { unfold m'. destruct s as [|p|p] eqn:Es; [cbn; lia| |lia].
    apply Z.shiftl_mul_pow2. lia. }
  clearbody m'.
  pose proof (Z_div_mod m' (Z.pos mc) ltac:(lia)) as Hdiv.
  destruct (Z.div_eucl m' (Z.pos mc)) as [q r]. destruct Hdiv as [Hq Hr].
  assert (Hs2 : (0 < 2 ^ s)%Z) by (apply Z.pow_pos_nonneg; lia).
  assert (Hq0 : (0 <= q)%Z) by nia.
  exists q, e', (new_location (Z.pos mc) r).
  split; [reflexivity|]. split; [exact Hq0|]. split.
  - replace (value mx ex / value mc ec * bpow (- e'))%R
      with (IZR q + IZR r / IZR (Z.pos mc))%R;
      [apply new_location_represents; lia|].
    unfold value.
    assert (Hbe : bpow ex = (bpow ec * bpow e' * bpow s)%R).
    { rewrite <- !bpow_add. f_equal. unfold s. lia. }
    pose proof (bpow_opp e') as Hinv.
    pose proof (bpow_pos ec) as Pc. pose proof (bpow_pos e') as Pe.
    assert (HM : (0 < IZR (Z.pos mc))%R) by (apply IZR_lt; lia).
    assert (Hm'R : (IZR (Z.pos mx) * bpow s =
                    IZR (Z.pos mc) * IZR q + IZR r)%R).
    { rewrite (bpow_IZR s Hs), <- mult_IZR, <- Hm', Hq, plus_IZR, mult_IZR.
      reflexivity. }
    rewrite Hbe.
    replace (bpow (- e')) with (/ bpow e')%R
      by (apply Rmult_eq_reg_l with (bpow e'); [rewrite Hinv; field|]; lra).
    replace (IZR (Z.pos mx) * (bpow ec * bpow e' * bpow s))%R
      with ((IZR (Z.pos mc) * IZR q + IZR r) * (bpow ec * bpow e'))%R
      by (rewrite <- Hm'R; ring).
    field. repeat split; lra.
  - rewrite fexp_eq.
    pose proof (Zdigits2_bounds q Hq0) as (Uq & Hdq & Lq).
    set (dq := Zdigits2 q) in *.
    destruct (Z_le_gt_dec e' (-1074)) as [He|He]; [lia|].
    assert (He' : (e' <= d1 + ex - (d2 + ec) - 53)%Z) by (unfold e' in *; lia).
    assert (Hd : (d1 - 1 + s < d2 + dq)%Z).
    { apply (Z.pow_lt_mono_r_iff 2); [lia|lia|].
      rewrite !Z.pow_add_r by (unfold d1, d2; lia).
      assert (Hd2 : (0 < 2 ^ d2)%Z) by (apply Z.pow_pos_nonneg; unfold d2; lia).
      assert (Hdq2 : (0 < 2 ^ dq)%Z) by (apply Z.pow_pos_nonneg; lia).
      assert (A1 : (2 ^ (d1 - 1) * 2 ^ s <= m')%Z)
        by (rewrite Hm'; apply Z.mul_le_mono_nonneg_r; lia).
      assert (A2 : (m' < Z.pos mc * (q + 1))%Z) by lia.
      assert (A3 : (Z.pos mc * (q + 1) <= 2 ^ d2 * 2 ^ dq)%Z)
        by (apply Z.mul_le_mono_nonneg; lia).
      lia. }
    unfold s in Hd. lia.
Qed.

Lemma SFdiv_monotone (mc : positive) (ec : Z) (m1 : positive) (e1 : Z)
    (m2 : positive) (e2 : Z) :
  SpecFloat.bounded prec emax m1 e1 = true ->
  SpecFloat.bounded prec emax m2 e2 = true ->
  SFleb (S754_finite false m1 e1) (S754_finite false m2 e2) = true ->
  SFleb (SF64div (S754_finite false m1 e1) (S754_finite false mc ec))
        (SF64div (S754_finite false m2 e2) (S754_finite false mc ec)) = true.
Proof.
  intros H1 H2 Hle.
  pose proof (SFleb_value _ _ _ _ H1 H2 Hle) as Hv.
  unfold SF64div, SFdiv. cbn [xorb].
  destruct (SFdiv_core_binary_spec m1 e1 mc ec) as (q1 & e1' & l1 & -> & Q1 & R1 & P1).
  destruct (SFdiv_core_binary_spec m2 e2 mc ec) as (q2 & e2' & l2 & -> & Q2 & R2 & P2).
  apply (binary_round_aux_monotone _ _ _ _ _ _ _ _ Q1 R1 P1 Q2 R2 P2).
  pose proof (value_pos mc ec) as Hc.
  apply Rmult_le_compat_r; [|exact Hv].
  apply Rlt_le, Rinv_0_lt_compat, Hc.
Qed.

(** ** Quotients and products in binary64 keep the order *)

Lemma SFleb_zero_l (s : bool) (r : spec_float) :
  SFsign r = Some false -> SFleb (S754_zero s) r = true.
Proof.
  destruct r as [s'|s'| |s' m e]; cbn; try discriminate;
    intros [= ->]; reflexivity.
Qed.

Lemma SFleb_infinity_r (r : spec_float) (s : bool) :
  SFsign r = Some s -> SFleb r (S754_infinity false) = true.
Proof.
  destruct r as [s'|s'| |s' m e]; cbn; try discriminate; intros _;
    try reflexivity.
  destruct s'; reflexivity.
Qed.

Lemma SFdiv_finite_sign (m1 : positive) (e1 : Z) (mc : positive) (ec : Z) :
  SFsign (SF64div (S754_finite false m1 e1) (S754_finite false mc ec))
  = Some false.
Proof.
  unfold SF64div, SFdiv. cbn [xorb].
  destruct (SFdiv_core_binary_spec m1 e1 mc ec) as (q & e' & l & -> & Hq & _).
  apply (binary_round_aux_sign prec emax false q e' l Hq).
Qed.

Lemma SFmul_finite_sign (mc : positive) (ec : Z) (m1 : positive) (e1 : Z) :
  SFsign (SF64mul (S754_finite false mc ec) (S754_finite false m1 e1))
  = Some false.
Proof.
  unfold SF64mul, SFmul. cbn [xorb].
  apply (binary_round_aux_sign prec emax false). lia.
Qed.

(** Dividing by a positive finite number keeps the order of the numbers
    that are not below zero. *)
Lemma div_monotone (c x y : float) (mc : positive) (ec : Z) :
  Prim2SF c = S754_finite false mc ec ->
  (0 <=? x) = true -> (x <=? y) = true -> (x / c <=? y / c) = true.
Proof.
  intros Hc. rewrite !leb_spec, !div_spec, Hc.
  change (Prim2SF 0) with (S754_zero false).
  pose proof (Prim2SF_valid x) as Vx. pose proof (Prim2SF_valid y) as Vy.
  destruct (Prim2SF x) as [sx|[]| |[] mx ex];
    destruct (Prim2SF y) as [sy|[]| |[] my ey];
    intros H0 Hle;
    try (cbn in H0; discriminate H0); try (cbn in Hle; discriminate Hle);
    try reflexivity.
  - change (SF64div (S754_zero sx) (S754_finite false mc ec))
      with (S754_zero (xorb sx false)).
    apply SFleb_zero_l, SFdiv_finite_sign.
  - change (SF64div (S754_infinity false) (S754_finite false mc ec))
      with (S754_infinity false).
    apply (SFleb_infinity_r _ false), SFdiv_finite_sign.
  - now apply SFdiv_monotone.
Qed.

(** Multiplying by a positive finite number keeps the order of the
    numbers that are not below zero. *)
Lemma mul_monotone (c x y : float) (mc : positive) (ec : Z) :
  Prim2SF c = S754_finite false mc ec ->
  (0 <=? x) = true -> (x <=? y) = true -> (c * x <=? c * y) = true.
Proof.
  intros Hc. rewrite !leb_spec, !mul_spec.
  pose proof (Prim2SF_valid c) as Vc. rewrite Hc in Vc |- *.
  change (Prim2SF 0) with (S754_zero false).
  pose proof (Prim2SF_valid x) as Vx. pose proof (Prim2SF_valid y) as Vy.
  destruct (Prim2SF x) as [sx|[]| |[] mx ex];
    destruct (Prim2SF y) as [sy|[]| |[] my ey];
    intros H0 Hle;
    try (cbn in H0; discriminate H0); try (cbn in Hle; discriminate Hle);
    try reflexivity.
  - change (SF64mul (S754_finite false mc ec) (S754_zero sx))
      with (S754_zero (xorb false sx)).
    apply SFleb_zero_l, SFmul_finite_sign.
  - change (SF64mul (S754_finite false mc ec) (S754_infinity false))
      with (S754_infinity false).
    apply (SFleb_infinity_r _ false), SFmul_finite_sign.
  - now apply SFmul_monotone.
Qed.

Lemma ltb_irrefl (x : float) : (x <? x) = false.
Proof.
  rewrite ltb_spec. unfold SFltb, SFcompare.
  destruct (Prim2SF x) as [s|[]| |[] m e]; try reflexivity;
    rewrite Z.compare_refl; fold (Pos.compare m m);
    rewrite Pos.compare_refl; reflexivity.
Qed.

(** ** C9: the fall-speed law *)

(** C9, as stated, fails in binary64: two diameters next to each other,
    near 5 mm, have the same tenth, and so the same fall speed whatever
    [pow] returns; so have 0 and the least diameter above it. *)
Lemma atlas_ulbrich_velocity_not_strict :
  ((0 <=? 5.0000000000000018) = true /\
   (5.0000000000000018 <? 5.0000000000000027) = true /\
   forall fpow : float -> float -> float,
     (atlas_ulbrich_velocity fpow 5.0000000000000018 <?
      atlas_ulbrich_velocity fpow 5.0000000000000027) = false) /\
  ((0 <=? 0) = true /\ (0 <? 5e-324) = true /\
   forall fpow : float -> float -> float,
     (atlas_ulbrich_velocity fpow 0 <?
      atlas_ulbrich_velocity fpow 5e-324) = false).
Proof.
  split; (split; [reflexivity|]; split; [reflexivity|]); intros fpow;
    unfold atlas_ulbrich_velocity.
  - change (5.0000000000000027 / 10) with (5.0000000000000018 / 10).
    apply ltb_irrefl.
  - change (5e-324 / 10) with (0 / 10). apply ltb_irrefl.
Qed.

(** C9, amended: in binary64, with a [pow] that on the bases that are not
    below zero is not below zero and keeps the order, the fall speed keeps
    the order of the diameters from 0 on: [v(D1) <= v(D2)] whenever
    [0 <= D1 <= D2]. *)
Theorem atlas_ulbrich_velocity_monotone
    (fpow : float -> float -> float) (D1 D2 : float) :
  (forall a : float, (0 <=? a) = true -> (0 <=? fpow a 0.67) = true) ->
  (forall a b : float,
      (0 <=? a) = true -> (a <=? b) = true ->
      (fpow a 0.67 <=? fpow b 0.67) = true) ->
  (0 <=? D1) = true -> (D1 <=? D2) = true ->
  (atlas_ulbrich_velocity fpow D1 <=? atlas_ulbrich_velocity fpow D2) = true.
Proof.
  intros Hpos Hmono H0 H12. unfold atlas_ulbrich_velocity.
  assert (Hq0 : (0 <=? D1 / 10) = true).
  { apply (div_monotone 10 0 D1 _ _ eq_refl); [reflexivity | exact H0]. }
  assert (Hq12 : (D1 / 10 <=? D2 / 10) = true).
  { apply (div_monotone 10 D1 D2 _ _ eq_refl); assumption. }
  apply (mul_monotone 17.67 _ _ _ _ eq_refl).
  - apply Hpos, Hq0.
  - apply Hmono; assumption.
Qed.

(** Diameters of 1 mm and 2 mm. *)
Lemma atlas_ulbrich_velocity_monotone_witness :
  (atlas_ulbrich_velocity pow_one 1 <=? atlas_ulbrich_velocity pow_one 2)
  = true.
Proof.
  apply (atlas_ulbrich_velocity_monotone pow_one 1 2).
  - intros a Ha. exact Ha.
  - intros a b _ Hab. exact Hab.
  - reflexivity.
  - reflexivity.
Defined.

(** ** More on [calculate_nd] *)

(** With denominators that are all strictly positive, as the instrument's
    are, and counts none of which is below zero, [calculate_nd] returns
    and N(D) is in no bin below zero or NaN; a missing count is skipped. *)
Theorem calculate_nd_never_negative (raw : labelled (labelled float))
    (diameter velocity : list float) (delta_t : float) :
  denominators_all_positive diameter velocity delta_t = true ->
  counts_nonneg raw = true ->
  exists nd,
    calculate_nd raw diameter velocity delta_t = Ok nd /\
    Forall (fun b => (0 <=? snd b) = true /\ is_nan (snd b) = false) nd.
Proof.
  unfold denominators_all_positive, calculate_nd.
  destruct (bin_widths diameter) as [delta_D|] eqn:Hw; [|discriminate].
  intros Hden Hraw. cbn [bind]. eexists. split; [reflexivity|].
  apply Forall_forall. intros [d x] Hin. cbn [snd].
  apply in_map_iff in Hin. destruct Hin as [[d' cells] [[= <- <-] Hin]].
  unfold quotient in Hin. apply in_join in Hin.
  destruct Hin as [row [drow [Hrow [Hl ->]]]].
  assert (Hx : (0 <=? nd_bin (join div row drow)) = true).
  { unfold nd_bin. apply nansum_nonneg. apply forallb_forall. intros y Hy.
    apply in_map_iff in Hy. destruct Hy as [[v y'] [<- Hy]]. cbn [snd].
    apply in_join in Hy. destruct Hy as [c [q [Hc [Hq ->]]]].
    apply div_nonneg_or_nan.
    - unfold counts_nonneg in Hraw. rewrite forallb_forall in Hraw.
      specialize (Hraw _ Hrow). cbn [snd] in Hraw.
      rewrite forallb_forall in Hraw. exact (Hraw _ Hc).
    - apply lookup_in in Hl. destruct Hl as [d'' Hl].
      apply lookup_in in Hq. destruct Hq as [v' Hq].
      unfold all_positive in Hden. rewrite forallb_forall in Hden.
      specialize (Hden _ Hl). cbn [snd] in Hden.
      rewrite forallb_forall in Hden. exact (Hden _ Hq). }
  split; [exact Hx | now apply leb_zero_not_nan].
Qed.

(** One drop in every cell of the instrument's matrix. *)
Lemma calculate_nd_never_negative_witness :
  exists nd,
    calculate_nd (constant_counts diameter_classes velocity_classes 1)
                 diameter_classes velocity_classes default_delta_t = Ok nd /\
    Forall (fun b => (0 <=? snd b) = true /\ is_nan (snd b) = false) nd.
Proof.
  apply (calculate_nd_never_negative
           (constant_counts diameter_classes velocity_classes 1)
           diameter_classes velocity_classes default_delta_t);
    vm_compute; reflexivity.
Defined.

(** With any tables, the diameter table having a class, counts that are
    all zero or missing give N(D) = 0 in every bin: a matrix of missing
    counts is not told from a matrix of zeros. *)
Theorem calculate_nd_missing_counts (raw : labelled (labelled float))
    (diameter velocity : list float) (delta_t : float) :
  diameter <> [] ->
  counts_zero_or_missing raw = true ->
  exists nd,
    calculate_nd raw diameter velocity delta_t = Ok nd /\
    Forall (fun b => is_zero (snd b) = true) nd.
Proof.
  intros Hd Hraw.
  destruct (calculate_nd_returns raw diameter velocity delta_t Hd)
    as [delta_D [_ [Hnd _]]].
  eexists. split; [exact Hnd|].
  apply Forall_forall. intros [d x] Hin. cbn [snd].
  apply in_map_iff in Hin. destruct Hin as [[d' cells] [[= <- <-] Hin]].
  unfold quotient in Hin. apply in_join in Hin.
  destruct Hin as [row [drow [Hrow [_ ->]]]].
  apply is_zero_kind. unfold nd_bin. apply nansum_zeros.
  apply Forall_forall. intros y Hy.
  apply in_map_iff in Hy. destruct Hy as [[v y'] [<- Hy]]. cbn [snd].
  apply in_join in Hy. destruct Hy as [c [q [Hc [_ ->]]]].
  apply zero_or_nan_div, zero_or_nan_spec.
  unfold counts_zero_or_missing in Hraw. rewrite forallb_forall in Hraw.
  specialize (Hraw _ Hrow). cbn [snd] in Hraw.
  rewrite forallb_forall in Hraw. exact (Hraw _ Hc).
Qed.

(** The instrument's matrix with every count missing. *)
Lemma calculate_nd_missing_counts_witness :
  exists nd,
    calculate_nd (constant_counts diameter_classes velocity_classes nan)
                 diameter_classes velocity_classes default_delta_t = Ok nd /\
    Forall (fun b => is_zero (snd b) = true) nd.
Proof.
  apply (calculate_nd_missing_counts
           (constant_counts diameter_classes velocity_classes nan)
           diameter_classes velocity_classes default_delta_t).
  - discriminate.
  - vm_compute. reflexivity.
Defined.

(** The bins are computed row by row: the result on two matrices put one
    after the other, no diameter label occurring twice, is the two
    results put one after the other. *)
Theorem calculate_nd_rows_independent (raw1 raw2 : labelled (labelled float))
    (diameter velocity : list float) (delta_t : float)
    (nd1 nd2 : labelled float) :
  unique (map fst (raw1 ++ raw2)) = true ->
  calculate_nd raw1 diameter velocity delta_t = Ok nd1 ->
  calculate_nd raw2 diameter velocity delta_t = Ok nd2 ->
  calculate_nd (raw1 ++ raw2) diameter velocity delta_t = Ok (nd1 ++ nd2).
Proof.
  intros _. unfold calculate_nd.
  destruct (bin_widths diameter) as [delta_D|]; [|discriminate].
  cbn [bind]. intros [= <-] [= <-].
  unfold quotient. now rewrite join_app, map_app.
Qed.

(** Two rows of one cell each, one drop in the slowest class. *)
Lemma calculate_nd_rows_independent_witness :
  calculate_nd ([(0.125, [(0.1, 1)])] ++ [(0.25, [(0.1, 1)])])
               diameter_classes velocity_classes default_delta_t
  = Ok ([(0.125, 293.31426790591945)] ++ [(0.25, 294.23663981757329)]).
Proof.
  apply (calculate_nd_rows_independent
           [(0.125, [(0.1, 1)])] [(0.25, [(0.1, 1)])]
           diameter_classes velocity_classes default_delta_t);
    vm_compute; reflexivity.
Defined.

(** ** More on [calculate_parameters_dsd] *)

Lemma sum_over_diameter_vanishes (term : float -> float -> float -> float)
    (nd : labelled float) (diameter delta_D : list float) :
  (forall d n w, zero_or_nan n -> zero_or_nan (term d n w)) ->
  Forall (fun b => zero_or_nan (snd b)) nd ->
  kind_of (sum_over_diameter term nd diameter delta_D) = KZero.
Proof.
  intros Hterm Hnd. unfold sum_over_diameter. apply nansum_zeros.
  apply Forall_forall. intros y Hy.
  apply in_map_iff in Hy. destruct Hy as [[k y'] [<- Hin]].
  apply in_join in Hin. destruct Hin as [[d w] [n [_ [Hn ->]]]].
  apply lookup_in in Hn. destruct Hn as [k' Hn].
  rewrite Forall_forall in Hnd. specialize (Hnd _ Hn). cbn in *.
  now apply Hterm.
Qed.

(** The integrator on a spectrum each bin of which is a zero or NaN. *)
Lemma bulk_of_vanishing_spectrum (fpow : float -> float -> float)
    (nd : labelled float) (diameter : list float) :
  is_nan (fpow nan 4) = true ->
  diameter <> [] ->
  Forall (fun b => zero_or_nan (snd b)) nd ->
  exists out,
    calculate_parameters_dsd fpow nd diameter = Ok out /\
    is_zero (R_ out) = true /\ is_zero (W_ out) = true /\
    is_zero (N_T out) = true /\ is_zero (Z_ out) = true /\
    is_nan (D_m out) = true /\ is_nan (N_w out) = true.
Proof.
  intros Hpow Hd Hnd.
  destruct (bin_widths_ok diameter Hd) as [delta_D [Hw _]].
  unfold calculate_parameters_dsd. rewrite Hw. cbn [bind].
  eexists. split; [reflexivity|]. cbn [R_ W_ N_T Z_ D_m N_w].
  assert (Hsum : forall term,
            (forall d n w, zero_or_nan n -> zero_or_nan (term d n w)) ->
            kind_of (sum_over_diameter term nd diameter delta_D) = KZero).
  { intros term Hterm. now apply sum_over_diameter_vanishes. }
  assert (Hmul : forall x n w, zero_or_nan n -> zero_or_nan (x * n * w)).
  { intros x n w Hn. now apply zero_or_nan_mul_l, zero_or_nan_mul_r. }
  assert (H3 : kind_of (sum_over_diameter (fun d n w => fpow d 3 * n * w)
                          nd diameter delta_D) = KZero).
  { apply Hsum. intros d n w. apply Hmul. }
  assert (H4 : kind_of (sum_over_diameter (fun d n w => fpow d 4 * n * w)
                          nd diameter delta_D) = KZero).
  { apply Hsum. intros d n w. apply Hmul. }
  assert (HD : is_nan (sum_over_diameter (fun d n w => fpow d 4 * n * w)
                          nd diameter delta_D /
                       sum_over_diameter (fun d n w => fpow d 3 * n * w)
                          nd diameter delta_D) = true).
  { apply is_nan_kind. rewrite (kind_div_zero _ _ H3), H4. reflexivity. }
  repeat split.
  - apply is_zero_kind, kind_mul_fin_zero; [reflexivity|].
    apply Hsum. intros d n w. apply Hmul.
  - apply is_zero_kind, kind_mul_fin_zero; [reflexivity | exact H3].
  - apply is_zero_kind, Hsum. intros d n w Hn.
    now apply zero_or_nan_mul_l.
  - apply is_zero_kind, Hsum. intros d n w. apply Hmul.
  - exact HD.
  - apply is_nan_kind, kind_mul_nan_r, kind_div_nan_r.
    rewrite (nan_unique _ HD). now apply is_nan_kind.
Qed.

(** A spectrum that is missing, or zero, in every bin gives the bulk values
    of a zero spectrum: R, W, N_T and Z are zero, not missing, and D_m and
    N_w are NaN.  The [pow] gives NaN on a NaN base. *)
Theorem bulk_of_missing_spectrum (fpow : float -> float -> float)
    (nd : labelled float) (diameter : list float) :
  is_nan (fpow nan 4) = true ->
  diameter <> [] ->
  Forall (fun b => is_zero (snd b) || is_nan (snd b) = true) nd ->
  exists out,
    calculate_parameters_dsd fpow nd diameter = Ok out /\
    is_zero (R_ out) = true /\ is_zero (W_ out) = true /\
    is_zero (N_T out) = true /\ is_zero (Z_ out) = true /\
    is_nan (D_m out) = true /\ is_nan (N_w out) = true.
Proof.
  intros Hpow Hd Hnd. apply bulk_of_vanishing_spectrum; [exact Hpow|exact Hd|].
  eapply Forall_impl; [|exact Hnd]. intros b. apply zero_or_nan_spec.
Qed.

(** The spectrum missing on every diameter of the instrument. *)
Lemma bulk_of_missing_spectrum_witness :
  exists out,
    calculate_parameters_dsd pow_by_mul
      (map (fun d => (d, nan)) diameter_classes) diameter_classes = Ok out /\
    is_zero (R_ out) = true /\ is_zero (W_ out) = true /\
    is_zero (N_T out) = true /\ is_zero (Z_ out) = true /\
    is_nan (D_m out) = true /\ is_nan (N_w out) = true.
Proof.
  apply (bulk_of_missing_spectrum pow_by_mul
           (map (fun d => (d, nan)) diameter_classes) diameter_classes).
  - reflexivity.
  - discriminate.
  - repeat constructor.
Defined.

(** With bin widths none of which is below zero, and a spectrum none of
    whose bins is below zero, the total concentration N_T is not below
    zero and not NaN; a missing bin is skipped. *)
Theorem total_concentration_never_negative (fpow : float -> float -> float)
    (nd : labelled float) (diameter : list float) :
  widths_nonneg diameter = true ->
  Forall (fun b => nonneg_or_nan (snd b) = true) nd ->
  exists out,
    calculate_parameters_dsd fpow nd diameter = Ok out /\
    (0 <=? N_T out) = true /\ is_nan (N_T out) = false.
Proof.
  unfold widths_nonneg, calculate_parameters_dsd.
  destruct (bin_widths diameter) as [delta_D|] eqn:Hw; [|discriminate].
  intros Hwidths Hnd. cbn [bind]. eexists. split; [reflexivity|].
  cbn [N_T].
  assert (H : (0 <=? sum_over_diameter (fun d n w => n * w) nd diameter delta_D)
              = true).
  { unfold sum_over_diameter. apply nansum_nonneg, forallb_forall.
    intros y Hy. apply in_map_iff in Hy. destruct Hy as [[k y'] [<- Hy]].
    cbn [snd]. apply in_join in Hy. destruct Hy as [[d w] [n [Ha [Hn ->]]]].
    apply mul_nonneg_or_nan.
    - apply lookup_in in Hn. destruct Hn as [k' Hn].
      rewrite Forall_forall in Hnd. exact (Hnd _ Hn).
    - apply in_map_iff in Ha. destruct Ha as [[d' w'] [[= _ <- <-] Ha]].
      apply in_combine_r in Ha.
      rewrite forallb_forall in Hwidths. exact (Hwidths _ Ha). }
  split; [exact H | now apply leb_zero_not_nan].
Qed.

(** A spectrum of 100 on every diameter of the instrument. *)
Lemma total_concentration_never_negative_witness :
  exists out,
    calculate_parameters_dsd pow_by_mul
      (map (fun d => (d, 100)) diameter_classes) diameter_classes = Ok out /\
    (0 <=? N_T out) = true /\ is_nan (N_T out) = false.
Proof.
  apply (total_concentration_never_negative pow_by_mul
           (map (fun d => (d, 100)) diameter_classes) diameter_classes).
  - vm_compute. reflexivity.
  - repeat constructor.
Defined.

(** [diameter[0]] comes before the division: on a count matrix as xarray
    holds it, labelled or not and aligned or not, [calculate_nd] raises
    [IndexError] exactly when the diameter table has no class. *)
Theorem empty_diameter_table_raises (raw : data_array)
    (diameter velocity : list float) (delta_t : float) :
  calculate_nd_array raw diameter velocity delta_t = Raise IndexError
  <-> diameter = [].
Proof.
  unfold calculate_nd_array. split.
  - destruct diameter as [|d0 tl]; [reflexivity|]. cbn [bin_widths bind].
    destruct (align_axis (diameter_index raw) _ _) as [ad|e] eqn:Ead;
      cbn [bind].
    + destruct (align_axis (velocity_index raw) _ _) as [av|e] eqn:Eav;
        cbn [bind]; [discriminate|].
      rewrite (align_axis_raises _ _ _ _ Eav). discriminate.
    + rewrite (align_axis_raises _ _ _ _ Ead). discriminate.
  - intros ->. reflexivity.
Qed.

(** ** [calculate_nd] into [calculate_parameters_dsd] *)

(** A time step without a drop: counts that are all zero or missing, put
    through the spectrum estimator and the integrator on one diameter
    table, give R, W, N_T and Z zero and D_m and N_w NaN, whatever the
    velocity table and the interval.  The [pow] gives NaN on a NaN base. *)
Theorem bulk_of_no_drops (fpow : float -> float -> float)
    (raw : labelled (labelled float))
    (diameter velocity : list float) (delta_t : float) :
  is_nan (fpow nan 4) = true ->
  diameter <> [] ->
  counts_zero_or_missing raw = true ->
  exists nd out,
    calculate_nd raw diameter velocity delta_t = Ok nd /\
    calculate_parameters_dsd fpow nd diameter = Ok out /\
    is_zero (R_ out) = true /\ is_zero (W_ out) = true /\
    is_zero (N_T out) = true /\ is_zero (Z_ out) = true /\
    is_nan (D_m out) = true /\ is_nan (N_w out) = true.
Proof.
  intros Hpow Hd Hraw.
  destruct (calculate_nd_returns raw diameter velocity delta_t Hd)
    as [delta_D [_ [Hnd _]]].
  rewrite Hnd.
  set (nd := map (fun '(d, cells) => (d, nd_bin cells)) _).
  enough (Hz : Forall (fun b => zero_or_nan (snd b)) nd).
  { destruct (bulk_of_vanishing_spectrum fpow nd diameter Hpow Hd Hz)
      as [out Hout].
    exists nd, out. split; [reflexivity | exact Hout]. }
  subst nd. apply Forall_forall. intros [d x] Hin. cbn [snd].
  apply in_map_iff in Hin. destruct Hin as [[d' cells] [[= <- <-] Hin]].
  unfold quotient in Hin. apply in_join in Hin.
  destruct Hin as [row [drow [Hrow [_ ->]]]].
  left. unfold nd_bin. apply nansum_zeros.
  apply Forall_forall. intros y Hy.
  apply in_map_iff in Hy. destruct Hy as [[v y'] [<- Hy]]. cbn [snd].
  apply in_join in Hy. destruct Hy as [c [q [Hc [_ ->]]]].
  apply zero_or_nan_div, zero_or_nan_spec.
  unfold counts_zero_or_missing in Hraw. rewrite forallb_forall in Hraw.
  specialize (Hraw _ Hrow). cbn [snd] in Hraw.
  rewrite forallb_forall in Hraw. exact (Hraw _ Hc).
Qed.

(** The instrument's matrix of zeros, at the default interval. *)
Lemma bulk_of_no_drops_witness :
  exists nd out,
    calculate_nd (constant_counts diameter_classes velocity_classes 0)
                 diameter_classes velocity_classes default_delta_t = Ok nd /\
    calculate_parameters_dsd pow_by_mul nd diameter_classes = Ok out /\
    is_zero (R_ out) = true /\ is_zero (W_ out) = true /\
    is_zero (N_T out) = true /\ is_zero (Z_ out) = true /\
    is_nan (D_m out) = true /\ is_nan (N_w out) = true.
Proof.
  apply (bulk_of_no_drops pow_by_mul
           (constant_counts diameter_classes velocity_classes 0)
           diameter_classes velocity_classes default_delta_t).
  - reflexivity.
  - discriminate.
  - vm_compute. reflexivity.
Defined.

(** ** More on [get_events] *)

Lemma cumsum_labels (acc : Z) (rows : list (Z * bool)) :
  map fst (Pd.cumsum acc rows) = map fst rows.
Proof.
  revert acc. induction rows as [|[t b] rows IH]; intros acc; cbn;
    [reflexivity|]. now rewrite IH.
Qed.

Lemma breaks_labels (a : list (Z * Z)) :
  map fst (map (fun '(t, gap) => (t, (Pd.sec <=? gap)%Z)) a) = map fst a.
Proof. rewrite map_map. apply map_ext. now intros [t gap]. Qed.

Lemma insert_key_in (k k' : Z) (ks : list Z) :
  In k (Pd.insert_key k' ks) <-> k = k' \/ In k ks.
Proof.
  induction ks as [|k0 ks IH]; cbn.
  - intuition.
  - destruct (k' <? k0)%Z eqn:E1; cbn; [intuition|].
    destruct (k' =? k0)%Z eqn:E2; cbn.
    + apply Z.eqb_eq in E2. subst. intuition.
    + rewrite IH. intuition.
Qed.

Lemma keys_in (rows : list (Z * Z)) (k : Z) :
  In k (Pd.keys rows) <-> In k (map snd rows).
Proof.
  unfold Pd.keys. induction (map snd rows) as [|k0 ks IH]; cbn; [reflexivity|].
  rewrite insert_key_in, IH. intuition.
Qed.

(** A group of [groupby] is the index of the rows of its key, in their
    order, and has a row. *)
Lemma groupby_in (rows : list (Z * Z)) (k : Z) (idx : list Z) :
  In (k, idx) (Pd.groupby rows) ->
  idx = map fst (filter (fun r => (snd r =? k)%Z) rows) /\ idx <> [].
Proof.
  unfold Pd.groupby. rewrite in_map_iff. intros [k' [[= <- <-] Hk]].
  split; [reflexivity|]. apply keys_in, in_map_iff in Hk.
  destruct Hk as [r [Hr Hin]].
  assert (H : In r (filter (fun r => (snd r =? k')%Z) rows)).
  { apply filter_In. split; [exact Hin|]. now apply Z.eqb_eq. }
  intros E. apply (in_map fst) in H. rewrite E in H. contradiction.
Qed.

Lemma group_labels (rows : list (Z * Z)) (k : Z) (idx : list Z) (t : Z) :
  In (k, idx) (Pd.groupby rows) -> In t idx -> In t (map fst rows).
Proof.
  intros Hg Ht. apply groupby_in in Hg. destruct Hg as [-> _].
  apply in_map_iff in Ht. destruct Ht as [r [<- Hr]].
  apply filter_In in Hr. now apply in_map.
Qed.

Lemma group_length (rows : list (Z * Z)) (k : Z) (idx : list Z) :
  In (k, idx) (Pd.groupby rows) -> (length idx <= length rows)%nat.
Proof.
  intros Hg. apply groupby_in in Hg. destruct Hg as [-> _].
  rewrite length_map. apply filter_length_le.
Qed.

Lemma fold_min_spec (l : list Z) (t : Z) :
  (fold_left Z.min l t = t \/ In (fold_left Z.min l t) l) /\
  (fold_left Z.min l t <= t)%Z /\
  Forall (fun x => (fold_left Z.min l t <= x)%Z) l.
Proof.
  revert t. induction l as [|x l IH]; intros t; cbn.
  - repeat split; [now left | lia | constructor].
  - destruct (IH (Z.min t x)) as [Hin [Hle Hall]]. repeat split.
    + destruct Hin as [Hin|Hin]; [|now right; right].
      rewrite Hin. destruct (Z.min_spec t x) as [[_ ->]|[_ ->]]; auto.
    + lia.
    + constructor; [lia | exact Hall].
Qed.

Lemma fold_max_spec (l : list Z) (t : Z) :
  (fold_left Z.max l t = t \/ In (fold_left Z.max l t) l) /\
  (t <= fold_left Z.max l t)%Z /\
  Forall (fun x => (x <= fold_left Z.max l t)%Z) l.
Proof.
  revert t. induction l as [|x l IH]; intros t; cbn.
  - repeat split; [now left | lia | constructor].
  - destruct (IH (Z.max t x)) as [Hin [Hle Hall]]. repeat split.
    + destruct Hin as [Hin|Hin]; [|now right; right].
      rewrite Hin. destruct (Z.max_spec t x) as [[_ ->]|[_ ->]]; auto.
    + lia.
    + constructor; [lia | exact Hall].
Qed.

Lemma index_min_in (idx : list Z) : idx <> [] -> In (Pd.index_min idx) idx.
Proof.
  destruct idx as [|t tl]; [congruence|]. intros _. cbn.
  destruct (fold_min_spec tl t) as [[H|H] _]; auto.
Qed.

Lemma index_max_in (idx : list Z) : idx <> [] -> In (Pd.index_max idx) idx.
Proof.
  destruct idx as [|t tl]; [congruence|]. intros _. cbn.
  destruct (fold_max_spec tl t) as [[H|H] _]; auto.
Qed.

Lemma index_min_le (idx : list Z) (t : Z) :
  In t idx -> (Pd.index_min idx <= t)%Z.
Proof.
  destruct idx as [|t0 tl]; [contradiction|]. cbn.
  destruct (fold_min_spec tl t0) as [_ [Hle Hall]].
  rewrite Forall_forall in Hall. intros [<-|H]; [exact Hle | now apply Hall].
Qed.

Lemma index_max_ge (idx : list Z) (t : Z) :
  In t idx -> (t <= Pd.index_max idx)%Z.
Proof.
  destruct idx as [|t0 tl]; [contradiction|]. cbn.
  destruct (fold_max_spec tl t0) as [_ [Hle Hall]].
  rewrite Forall_forall in Hall. intros [<-|H]; [exact Hle | now apply Hall].
Qed.

Lemma index_min_le_max (idx : list Z) : (Pd.index_min idx <= Pd.index_max idx)%Z.
Proof.
  destruct idx as [|t tl]; [cbn; lia|].
  apply index_min_le, index_max_in. discriminate.
Qed.

Lemma ev_series_app (ds1 ds2 : dataset) (tot_counts : float) :
  ev_series (ds1 ++ ds2) tot_counts =
  ev_series ds1 tot_counts ++ ev_series ds2 tot_counts.
Proof. unfold ev_series. now rewrite !map_app, filter_app. Qed.

Lemma ev_series_in (ds : dataset) (tot_counts : float) (t : Z) (x : float) :
  In (t, x) (ev_series ds tot_counts) ->
  exists row, In (t, row) ds /\ x = nansum row /\ (tot_counts <? x) = true.
Proof.
  unfold ev_series. rewrite filter_In, map_map, in_map_iff.
  intros [[[t' row] [E Hin]] Hx].
  destruct (tot_counts <? nansum row) eqn:Hc; injection E as <- <-.
  - eauto.
  - discriminate.
Qed.

Lemma ev_series_length (ds : dataset) (tot_counts : float) :
  (length (ev_series ds tot_counts) <= length ds)%nat.
Proof.
  unfold ev_series. eapply Nat.le_trans; [apply filter_length_le|].
  now rewrite !length_map.
Qed.

(** The rows that are grouped are labelled by the timestamps of [ev] but
    the first. *)
Lemma event_groups_labels (ev : list (Z * float)) (k : Z) (idx : list Z) (t : Z) :
  In (k, idx) (event_groups ev) -> In t idx -> In t (tl (map fst ev)).
Proof.
  unfold event_groups. intros Hg Ht.
  pose proof (group_labels _ _ _ _ Hg Ht) as H.
  now rewrite cumsum_labels, breaks_labels, diff_time_labels in H.
Qed.

Lemma event_groups_length (ev : list (Z * float)) (k : Z) (idx : list Z) :
  In (k, idx) (event_groups ev) -> (length idx <= pred (length ev))%nat.
Proof.
  unfold event_groups. intros Hg. apply group_length in Hg.
  rewrite <- (length_map fst) in Hg.
  rewrite cumsum_labels, breaks_labels, diff_time_labels in Hg.
  destruct ev as [|e ev]; cbn in *; [exact Hg|]. now rewrite length_map in Hg.
Qed.

Lemma in_tl {A : Type} (x : A) (l : list A) : In x (tl l) -> In x l.
Proof. destruct l; cbn; auto. Qed.

(** The two lists of [get_events] run in parallel, and no event ends
    before it starts. *)
Theorem get_events_start_before_end (ds : dataset)
    (time_lenght time_break : Z) (tot_counts : float) :
  length (fst (get_events ds time_lenght time_break tot_counts)) =
  length (snd (get_events ds time_lenght time_break tot_counts)) /\
  Forall2 Z.le (fst (get_events ds time_lenght time_break tot_counts))
               (snd (get_events ds time_lenght time_break tot_counts)).
Proof.
  unfold get_events. cbn [fst snd]. split; [now rewrite !length_map|].
  induction (filter _ _) as [|g l IH]; cbn; constructor;
    [apply index_min_le_max | exact IH].
Qed.

(** With the sum from the left, [get_events_with] is [get_events]. *)
Lemma get_events_with_nansum (ds : dataset) (time_lenght time_break : Z)
    (tot_counts : float) :
  get_events_with nansum ds time_lenght time_break tot_counts =
  get_events ds time_lenght time_break tot_counts.
Proof. reflexivity. Qed.

Lemma ev_series_with_in (total : list float -> float) (ds : dataset)
    (tot_counts : float) (t : Z) (x : float) :
  In (t, x) (ev_series_with total ds tot_counts) ->
  exists row, In (t, row) ds /\ x = total row /\ (tot_counts <? x) = true.
Proof.
  unfold ev_series_with. rewrite filter_In, map_map, in_map_iff.
  intros [[[t' row] [E Hin]] Hx].
  destruct (tot_counts <? total row) eqn:Hc; injection E as <- <-.
  - eauto.
  - discriminate.
Qed.

Lemma ev_series_with_app (total : list float -> float) (ds1 ds2 : dataset)
    (tot_counts : float) :
  ev_series_with total (ds1 ++ ds2) tot_counts =
  ev_series_with total ds1 tot_counts ++ ev_series_with total ds2 tot_counts.
Proof. unfold ev_series_with. now rewrite !map_app, filter_app. Qed.

Lemma ev_series_with_low (total : list float -> float) (t : Z)
    (row : list float) (tot_counts : float) :
  (tot_counts <? total row) = false ->
  ev_series_with total [(t, row)] tot_counts = [].
Proof.
  intros H. unfold ev_series_with. cbn [map filter]. rewrite H.
  reflexivity.
Qed.

(** Whatever the order in which the density of a step is added up: every
    start and every end of an event is the timestamp of a step of the
    series whose density exceeds [tot_counts]. *)
Theorem get_events_at_kept_steps (total : list float -> float) (ds : dataset)
    (time_lenght time_break : Z) (tot_counts : float) (t : Z) :
  In t (fst (get_events_with total ds time_lenght time_break tot_counts)) \/
  In t (snd (get_events_with total ds time_lenght time_break tot_counts)) ->
  exists row, In (t, row) ds /\ (tot_counts <? total row) = true.
Proof.
  unfold get_events_with. cbn [fst snd]. intros H.
  assert (Hg : exists k idx,
            In (k, idx) (event_groups (ev_series_with total ds tot_counts)) /\
            In t idx).
  { destruct H as [H|H]; apply in_map_iff in H;
      destruct H as [[k idx] [<- H]]; apply filter_In in H;
      destruct H as [H _]; exists k, idx; (split; [exact H|]); cbn [snd];
      [apply index_min_in | apply index_max_in];
      apply (groupby_in _ _ _ H). }
  destruct Hg as [k [idx [Hg Ht]]].
  apply (event_groups_labels _ _ _ _ Hg), in_tl, in_map_iff in Ht.
  destruct Ht as [[t' x] [<- Ht]]. cbn [fst].
  apply ev_series_with_in in Ht. destruct Ht as [row [Hin [-> Hc]]]. eauto.
Qed.

(** The start of the event of twelve steady steps of one bin each. *)
Lemma get_events_at_kept_steps_witness :
  exists row, In ((1 * minute)%Z, row) (steady_run 0 12) /\
              (5 <? nansum row) = true.
Proof.
  apply (get_events_at_kept_steps nansum (steady_run 0 12) 10 5 5
           (1 * minute)%Z).
  left. vm_compute. left. reflexivity.
Defined.

Lemma filter_none {A : Type} (f : A -> bool) (l : list A) :
  (forall x, In x l -> f x = false) -> filter f l = [].
Proof.
  induction l as [|a l IH]; intros H; cbn; [reflexivity|].
  rewrite (H a (or_introl eq_refl)). apply IH. intros x Hx. apply H. now right.
Qed.

(** Whatever the order in which the density of a step is added up: the
    rows that are grouped are one fewer than the steps whose density
    exceeds [tot_counts], and an event needs more than [time_lenght] of
    them, so with at most [time_lenght + 1] such steps there is no
    event. *)
Theorem get_events_few_steps (total : list float -> float) (ds : dataset)
    (time_lenght time_break : Z) (tot_counts : float) :
  (Z.of_nat (length (ev_series_with total ds tot_counts))
     <= time_lenght + 1)%Z ->
  get_events_with total ds time_lenght time_break tot_counts = ([], []).
Proof.
  intros Hlen. unfold get_events_with. rewrite filter_none; [reflexivity|].
  intros [k idx] Hin. cbn [snd]. apply Z.ltb_ge.
  pose proof (event_groups_length _ _ _ Hin) as Hidx.
  assert (Hne : idx <> [])
    by (unfold event_groups in Hin; apply (groupby_in _ _ _ Hin)).
  destruct idx as [|t idx]; [congruence|]. cbn [length] in *. lia.
Qed.

(** Eleven steady steps of one bin each at [time_lenght = 10]. *)
Lemma get_events_few_steps_witness :
  get_events_with nansum (steady_run 0 11) 10 5 5 = ([], []).
Proof.
  apply (get_events_few_steps nansum (steady_run 0 11) 10 5 5).
  vm_compute. discriminate.
Defined.

Lemma combine_map {A B C : Type} (f : A -> B) (g : A -> C) (l : list A) :
  combine (map f l) (map g l) = map (fun x => (f x, g x)) l.
Proof. induction l as [|a l IH]; cbn; [reflexivity | now rewrite IH]. Qed.

Lemma events_groups (ds : dataset) (time_lenght time_break : Z)
    (tot_counts : float) :
  events ds time_lenght time_break tot_counts =
  map (fun g => (Pd.index_min (snd g), Pd.index_max (snd g)))
      (filter (fun g : Z * list Z =>
                 (time_lenght <? Z.of_nat (length (snd g)))%Z)
              (event_groups (ev_series ds tot_counts))).
Proof. unfold events, get_events. apply combine_map. Qed.

Lemma filter_length_mono {A : Type} (p q : A -> bool) (l : list A) :
  (forall x, p x = true -> q x = true) ->
  (length (filter p l) <= length (filter q l))%nat.
Proof.
  intros Hpq. induction l as [|a l IH]; cbn; [lia|].
  destruct (p a) eqn:Hp.
  - rewrite (Hpq a Hp). cbn. lia.
  - destruct (q a); cbn; lia.
Qed.

(** A longer minimal length only drops events: every event found with
    the longer one is found, with the same start and end, with the
    shorter one. *)
Theorem get_events_longer_minimum (ds : dataset)
    (time_lenght time_lenght' time_break : Z) (tot_counts : float) :
  (time_lenght <= time_lenght')%Z ->
  incl (events ds time_lenght' time_break tot_counts)
       (events ds time_lenght time_break tot_counts) /\
  (length (events ds time_lenght' time_break tot_counts) <=
   length (events ds time_lenght time_break tot_counts))%nat.
Proof.
  intros Hle. rewrite !events_groups.
  assert (Hlong : forall g : Z * list Z,
            (time_lenght' <? Z.of_nat (length (snd g)))%Z = true ->
            (time_lenght <? Z.of_nat (length (snd g)))%Z = true).
  { intros g. rewrite !Z.ltb_lt. lia. }
  split.
  - intros e He. apply in_map_iff in He. destruct He as [g [<- Hg]].
    apply in_map_iff. exists g. split; [reflexivity|].
    apply filter_In in Hg. apply filter_In.
    split; [apply Hg | apply Hlong, Hg].
  - rewrite !length_map. now apply filter_length_mono.
Qed.

(** A run of three steps and a run of thirteen, at minimal lengths of 1
    and of 10. *)
Lemma get_events_longer_minimum_witness :
  incl (events (steady_run 0 3 ++ steady_run (40 * minute) 13) 10 5 5)
       (events (steady_run 0 3 ++ steady_run (40 * minute) 13) 1 5 5) /\
  (length (events (steady_run 0 3 ++ steady_run (40 * minute) 13) 10 5 5) <=
   length (events (steady_run 0 3 ++ steady_run (40 * minute) 13) 1 5 5))%nat.
Proof.
  apply (get_events_longer_minimum
           (steady_run 0 3 ++ steady_run (40 * minute) 13) 1 10 5 5).
  lia.
Defined.

(** Whatever the order in which the density of a step is added up: a step
    whose density does not exceed [tot_counts] is dropped before the gaps
    are taken, and the result is that of the series without it. *)
Theorem get_events_skips_low_steps (total : list float -> float)
    (pre post : dataset) (t : Z) (row : list float)
    (time_lenght time_break : Z) (tot_counts : float) :
  (tot_counts <? total row) = false ->
  get_events_with total (pre ++ (t, row) :: post)
                  time_lenght time_break tot_counts =
  get_events_with total (pre ++ post) time_lenght time_break tot_counts.
Proof.
  intros Hrow. unfold get_events_with.
  assert (E : ev_series_with total (pre ++ (t, row) :: post) tot_counts =
              ev_series_with total (pre ++ post) tot_counts).
  { change ((t, row) :: post) with ([(t, row)] ++ post).
    rewrite !ev_series_with_app.
    now rewrite (ev_series_with_low total t row tot_counts Hrow). }
  now rewrite E.
Qed.

(** Twelve steady steps with a step of density 1 put after the third. *)
Lemma get_events_skips_low_steps_witness :
  get_events_with nansum
    (steady_run 0 3 ++ (150000000000%Z, [1]) :: steady_run (3 * minute) 9)
    10 5 5 =
  get_events_with nansum (steady_run 0 3 ++ steady_run (3 * minute) 9) 10 5 5.
Proof.
  apply (get_events_skips_low_steps nansum (steady_run 0 3)
           (steady_run (3 * minute) 9) 150000000000%Z [1] 10 5 5).
  reflexivity.
Defined.

(** Moving the series in time. *)

Lemma ev_series_shift (c : Z) (ds : dataset) (tot_counts : float) :
  map fst (ev_series (shift_time c ds) tot_counts) =
  map (Z.add c) (map fst (ev_series ds tot_counts)).
Proof.
  unfold ev_series, shift_time.
  induction ds as [|[t row] ds IH]; [reflexivity|].
  cbn [map filter fst snd].
  destruct (negb (is_nan (if tot_counts <? nansum row then nansum row else nan)));
    cbn [map fst]; now rewrite IH.
Qed.

Lemma diff_time_shift (c : Z) (ts : list Z) :
  Pd.diff_time (map (Z.add c) ts) =
  map (fun r => ((c + fst r)%Z, snd r)) (Pd.diff_time ts).
Proof.
  induction ts as [|t0 [|t1 ts] IH]; [reflexivity | reflexivity |].
  cbn [map Pd.diff_time fst snd] in *. rewrite IH. f_equal. f_equal. lia.
Qed.

Lemma cumsum_shift (c acc : Z) (rows : list (Z * bool)) :
  Pd.cumsum acc (map (fun r => ((c + fst r)%Z, snd r)) rows) =
  map (fun r => ((c + fst r)%Z, snd r)) (Pd.cumsum acc rows).
Proof.
  revert acc. induction rows as [|[t b] rows IH]; intros acc; [reflexivity|].
  cbn [map Pd.cumsum fst snd]. now rewrite IH.
Qed.

Lemma filter_map_comm {A B : Type} (f : B -> bool) (h : A -> B) (l : list A) :
  filter f (map h l) = map h (filter (fun a => f (h a)) l).
Proof.
  induction l as [|a l IH]; cbn; [reflexivity|].
  destruct (f (h a)); cbn; now rewrite IH.
Qed.

Lemma groupby_shift (c : Z) (rows : list (Z * Z)) :
  Pd.groupby (map (fun r => ((c + fst r)%Z, snd r)) rows) =
  map (fun g => (fst g, map (Z.add c) (snd g))) (Pd.groupby rows).
Proof.
  unfold Pd.groupby, Pd.keys. rewrite !map_map. cbn [snd].
  apply map_ext. intros k. cbn [fst snd]. f_equal.
  rewrite filter_map_comm, !map_map. reflexivity.
Qed.

Lemma event_groups_shift (c : Z) (ev ev' : list (Z * float)) :
  map fst ev' = map (Z.add c) (map fst ev) ->
  event_groups ev' =
  map (fun g => (fst g, map (Z.add c) (snd g))) (event_groups ev).
Proof.
  intros E. unfold event_groups. rewrite E, diff_time_shift.
  rewrite <- groupby_shift, <- cumsum_shift, !map_map.
  do 2 f_equal. apply map_ext. now intros [t gap].
Qed.

Lemma fold_min_shift (c : Z) (l : list Z) (t : Z) :
  fold_left Z.min (map (Z.add c) l) (c + t)%Z = (c + fold_left Z.min l t)%Z.
Proof.
  revert t. induction l as [|x l IH]; intros t; cbn; [reflexivity|].
  now rewrite Z.add_min_distr_l, IH.
Qed.

Lemma fold_max_shift (c : Z) (l : list Z) (t : Z) :
  fold_left Z.max (map (Z.add c) l) (c + t)%Z = (c + fold_left Z.max l t)%Z.
Proof.
  revert t. induction l as [|x l IH]; intros t; cbn; [reflexivity|].
  now rewrite Z.add_max_distr_l, IH.
Qed.

(** [get_events] looks at the gaps only: as long as the timestamps, before
    and after, stay where their 64-bit differences do not wrap, moving
    every timestamp by the same amount moves every start and every end by
    that amount. *)
Theorem get_events_shift (c : Z) (ds : dataset)
    (time_lenght time_break : Z) (tot_counts : float) :
  forallb in_range (map fst ds) = true ->
  forallb in_range (map fst (shift_time c ds)) = true ->
  get_events (shift_time c ds) time_lenght time_break tot_counts =
  (map (Z.add c) (fst (get_events ds time_lenght time_break tot_counts)),
   map (Z.add c) (snd (get_events ds time_lenght time_break tot_counts))).
Proof.
  intros _ _. unfold get_events. cbn [fst snd].
  rewrite (event_groups_shift c (ev_series ds tot_counts))
    by apply ev_series_shift.
  rewrite filter_map_comm. cbn [snd].
  rewrite (filter_ext _ (fun g : Z * list Z =>
                           (time_lenght <? Z.of_nat (length (snd g)))%Z))
    by (intros g; now rewrite length_map).
  rewrite !map_map. cbn [snd].
  f_equal; apply map_ext_in; intros [k idx] Hin; cbn [snd];
    apply filter_In in Hin; destruct Hin as [Hin _];
    unfold event_groups in Hin; apply groupby_in in Hin;
    destruct Hin as [_ Hne]; (destruct idx as [|t idx]; [congruence|]); cbn;
    [apply fold_min_shift | apply fold_max_shift].
Qed.

(** Twelve steady steps, an hour later. *)
Lemma get_events_shift_witness :
  get_events (shift_time (60 * minute) (steady_run 0 12)) 10 5 5 =
  (map (Z.add (60 * minute)) (fst (get_events (steady_run 0 12) 10 5 5)),
   map (Z.add (60 * minute)) (snd (get_events (steady_run 0 12) 10 5 5))).
Proof.
  apply (get_events_shift (60 * minute) (steady_run 0 12) 10 5 5);
    reflexivity.
Defined.

(** The order of the events. *)

Lemma StronglySorted_map {A B : Type} (R : B -> B -> Prop) (f : A -> B)
    (l : list A) :
  StronglySorted R (map f l) <-> StronglySorted (fun a b => R (f a) (f b)) l.
Proof.
  induction l as [|a l IH]; cbn.
  - split; constructor.
  - split; intros H; inversion H as [|? ? Hs Hall]; subst; constructor.
    + now apply IH.
    + rewrite Forall_map in Hall. exact Hall.
    + now apply IH.
    + rewrite Forall_map. exact Hall.
Qed.

Lemma StronglySorted_filter {A : Type} (R : A -> A -> Prop) (p : A -> bool)
    (l : list A) :
  StronglySorted R l -> StronglySorted R (filter p l).
Proof.
  induction 1 as [|a l Hs IH Hall]; cbn; [constructor|].
  destruct (p a); [|exact IH]. constructor; [exact IH|].
  rewrite Forall_forall in *. intros x Hx. apply Hall.
  apply filter_In in Hx. apply Hx.
Qed.

Lemma StronglySorted_on_members {A : Type} (R R' : A -> A -> Prop) (l : list A) :
  (forall a b, In a l -> In b l -> R a b -> R' a b) ->
  StronglySorted R l -> StronglySorted R' l.
Proof.
  intros HR Hs. induction Hs as [|a l Hs IH Hall]; constructor.
  - apply IH. intros x y Hx Hy. apply HR; now right.
  - rewrite Forall_forall in *. intros x Hx.
    apply HR; [now left | now right | now apply Hall].
Qed.

Lemma cumsum_sorted (rows : list (Z * bool)) (acc : Z) :
  StronglySorted Z.lt (map fst rows) ->
  StronglySorted row_before (Pd.cumsum acc rows) /\
  Forall (fun r => (acc <= snd r)%Z) (Pd.cumsum acc rows).
Proof.
  revert acc. induction rows as [|[t b] rows IH]; intros acc Hs.
  - split; constructor.
  - cbn [map fst] in Hs. inversion Hs as [|? ? Hs' Hall]; subst.
    cbn [Pd.cumsum].
    set (acc' := if b then (acc + 1)%Z else acc).
    assert (Hacc : (acc <= acc')%Z) by (subst acc'; destruct b; lia).
    destruct (IH acc' Hs') as [Hsorted Hkeys]. split.
    + constructor; [exact Hsorted|].
      rewrite Forall_forall in *. intros r Hr. split; cbn [fst snd].
      * apply Hall. rewrite <- (cumsum_labels acc' rows). now apply in_map.
      * now apply Hkeys.
    + constructor; [exact Hacc|].
      eapply Forall_impl; [|exact Hkeys]. cbn. intros r Hr. lia.
Qed.

(** In the grouped table a row of an earlier group has an earlier label. *)
Lemma rows_of_earlier_group (rows : list (Z * Z)) (r r' : Z * Z) :
  StronglySorted row_before rows ->
  In r rows -> In r' rows -> (snd r < snd r')%Z -> (fst r < fst r')%Z.
Proof.
  induction 1 as [|a l Hs IH Hall]; [contradiction|].
  rewrite Forall_forall in Hall.
  intros [<-|Hr] [<-|Hr'] Hk.
  - lia.
  - apply (Hall _ Hr').
  - destruct (Hall _ Hr) as [_ H]. lia.
  - now apply IH.
Qed.

Lemma insert_key_sorted (k : Z) (ks : list Z) :
  StronglySorted Z.lt ks -> StronglySorted Z.lt (Pd.insert_key k ks).
Proof.
  induction 1 as [|k0 ks Hs IH Hall]; cbn.
  - repeat constructor.
  - destruct (k <? k0)%Z eqn:E1.
    + apply Z.ltb_lt in E1. constructor; [now constructor|].
      constructor; [exact E1|].
      eapply Forall_impl; [|exact Hall]. cbn. intros x Hx. lia.
    + destruct (k =? k0)%Z eqn:E2; [now constructor|].
      apply Z.ltb_ge in E1. apply Z.eqb_neq in E2.
      constructor; [exact IH|].
      rewrite Forall_forall in *. intros x Hx.
      apply insert_key_in in Hx. destruct Hx as [->|Hx]; [lia | now apply Hall].
Qed.

Lemma keys_sorted (rows : list (Z * Z)) : StronglySorted Z.lt (Pd.keys rows).
Proof.
  unfold Pd.keys. induction (map snd rows) as [|k ks IH]; cbn;
    [constructor | now apply insert_key_sorted].
Qed.

Lemma groupby_sorted (rows : list (Z * Z)) :
  StronglySorted row_before rows ->
  StronglySorted
    (fun g g' : Z * list Z =>
       forall t t', In t (snd g) -> In t' (snd g') -> (t < t')%Z)
    (Pd.groupby rows).
Proof.
  intros Hrows.
  apply (StronglySorted_on_members (fun g g' => (fst g < fst g')%Z)).
  - intros [k idx] [k' idx'] Hg Hg' Hk t t' Ht Ht'. cbn [fst snd] in *.
    apply groupby_in in Hg, Hg'. destruct Hg as [-> _], Hg' as [-> _].
    apply in_map_iff in Ht, Ht'.
    destruct Ht as [r [<- Hr]], Ht' as [r' [<- Hr']].
    apply filter_In in Hr, Hr'.
    destruct Hr as [Hr Ek], Hr' as [Hr' Ek'].
    apply Z.eqb_eq in Ek, Ek'.
    apply (rows_of_earlier_group rows r r' Hrows Hr Hr'). lia.
  - unfold Pd.groupby. apply StronglySorted_map. cbn [fst].
    apply keys_sorted.
Qed.

Lemma ev_series_labels (ds : dataset) (tot_counts : float) :
  map fst (ev_series ds tot_counts) =
  map fst (filter (fun step =>
                     negb (is_nan (if tot_counts <? nansum (snd step)
                                   then nansum (snd step) else nan))) ds).
Proof.
  unfold ev_series. induction ds as [|[t row] ds IH]; [reflexivity|].
  cbn [map filter fst snd].
  destruct (negb (is_nan (if tot_counts <? nansum row then nansum row else nan)));
    cbn [map fst]; now rewrite IH.
Qed.

Lemma tl_sorted (ts : list Z) :
  StronglySorted Z.lt ts -> StronglySorted Z.lt (tl ts).
Proof. destruct 1; [constructor | assumption]. Qed.

(** On a series whose timestamps increase, the events come in the order of
    time and apart: each is over before the next, and every later one,
    starts. *)
Theorem get_events_chronological (ds : dataset)
    (time_lenght time_break : Z) (tot_counts : float) :
  StronglySorted Z.lt (map fst ds) ->
  StronglySorted event_before (events ds time_lenght time_break tot_counts).
Proof.
  intros Hds. rewrite events_groups. apply StronglySorted_map.
  assert (Hev : StronglySorted Z.lt (map fst (ev_series ds tot_counts))).
  { rewrite ev_series_labels. apply StronglySorted_map.
    apply StronglySorted_filter. now apply StronglySorted_map. }
  assert (Hrows : StronglySorted
            (fun g g' : Z * list Z =>
               forall t t', In t (snd g) -> In t' (snd g') -> (t < t')%Z)
            (event_groups (ev_series ds tot_counts))).
  { unfold event_groups. apply groupby_sorted.
    apply cumsum_sorted. rewrite breaks_labels, diff_time_labels.
    now apply tl_sorted. }
  apply StronglySorted_filter.
  revert Hrows. apply StronglySorted_on_members.
  intros [k idx] [k' idx'] Hg Hg' H. unfold event_before. cbn [fst snd] in *.
  unfold event_groups in Hg, Hg'. apply groupby_in in Hg, Hg'.
  apply H; [apply index_max_in, Hg | apply index_min_in, Hg'].
Qed.

(** Two runs of thirteen steps, forty minutes apart. *)
Lemma get_events_chronological_witness :
  StronglySorted event_before
    (events (steady_run 0 13 ++ steady_run (40 * minute) 13) 10 5 5).
Proof.
  apply (get_events_chronological
           (steady_run 0 13 ++ steady_run (40 * minute) 13) 10 5 5).
  vm_compute. repeat (constructor; [|repeat (constructor; [reflexivity|])]);
    constructor.
Defined.

(** ** More on the bin widths and the denominators *)

Lemma diff_nth (l : list float) (i : nat) (a b : float) :
  nth_error l i = Some a -> nth_error l (S i) = Some b ->
  nth_error (diff l) i = Some (b - a).
Proof.
  revert i. induction l as [|x [|y l] IH]; intros i; cbn [nth_error].
  - destruct i; discriminate.
  - destruct i; cbn; [discriminate | destruct i; discriminate].
  - destruct i as [|i].
    + cbn. now intros [= ->] [= ->].
    + intros Ha Hb. cbn [diff nth_error]. now apply IH.
Qed.

(** For every diameter table with a class, the bin widths are as many as
    the classes, the first is the first diameter, and each other one is the
    difference of its diameter and the one before. *)
Theorem bin_widths_shape (diameter : list float) :
  diameter <> [] ->
  exists delta_D,
    bin_widths diameter = Ok delta_D /\
    length delta_D = length diameter /\
    hd_error delta_D = hd_error diameter /\
    forall (i : nat) (a b : float),
      nth_error diameter i = Some a -> nth_error diameter (S i) = Some b ->
      nth_error delta_D (S i) = Some (b - a).
Proof.
  intros Hd. destruct diameter as [|d0 tl]; [congruence|].
  eexists. split; [reflexivity|]. split; [|split; [reflexivity|]].
  - cbn [length]. now rewrite diff_length.
  - intros i a b Ha Hb. cbn [nth_error]. now apply diff_nth.
Qed.

(** The widths of the diameters 1, 1.5 and 3. *)
Lemma bin_widths_shape_witness :
  exists delta_D,
    bin_widths [1; 1.5; 3] = Ok delta_D /\
    length delta_D = length [1; 1.5; 3] /\
    hd_error delta_D = hd_error [1; 1.5; 3] /\
    forall (i : nat) (a b : float),
      nth_error [1; 1.5; 3] i = Some a ->
      nth_error [1; 1.5; 3] (S i) = Some b ->
      nth_error delta_D (S i) = Some (b - a).
Proof.
  apply (bin_widths_shape [1; 1.5; 3]). discriminate.
Defined.

(** The denominator table has the shape of the tables it is made from: its
    rows carry the diameters, in their order, and every row carries the
    velocities, in their order. *)
Theorem denominator_shape (delta_t : float) (diameter velocity delta_D : list float) :
  bin_widths diameter = Ok delta_D ->
  let den := denominator delta_t diameter velocity delta_D in
  map fst den = diameter /\
  Forall (fun row => map fst (snd row) = velocity) den /\
  has_table_shape den diameter velocity = true.
Proof.
  intros Hw den.
  assert (Hlen : length delta_D = length diameter).
  { assert (Hd : diameter <> []) by (intros ->; discriminate).
    destruct (bin_widths_ok diameter Hd) as [w [Hw' [Hlen _]]].
    rewrite Hw in Hw'. injection Hw' as ->. exact Hlen. }
  assert (Hlab : map fst den = diameter) by now apply denominator_labels.
  assert (Hrows : Forall (fun row => map fst (snd row) = velocity) den).
  { subst den. unfold denominator. apply Forall_forall. intros row Hrow.
    apply in_map_iff in Hrow. destruct Hrow as [[d w] [<- _]]. cbn [snd].
    rewrite map_map. cbn [fst]. apply map_id. }
  split; [exact Hlab|]. split; [exact Hrows|].
  unfold has_table_shape. apply andb_true_iff. split.
  - apply Nat.eqb_eq.
    transitivity (length (map fst den));
      [now rewrite length_map | now rewrite Hlab].
  - apply forallb_forall. intros row Hrow. apply Nat.eqb_eq.
    rewrite Forall_forall in Hrows.
    transitivity (length (map fst (snd row)));
      [now rewrite length_map | now rewrite (Hrows row Hrow)].
Qed.

(** The table of the instrument at the default interval. *)
Lemma denominator_shape_witness :
  exists delta_D,
    let den := denominator default_delta_t diameter_classes velocity_classes
                 delta_D in
    map fst den = diameter_classes /\
    Forall (fun row => map fst (snd row) = velocity_classes) den /\
    has_table_shape den diameter_classes velocity_classes = true.
Proof.
  eexists.
  apply (denominator_shape default_delta_t diameter_classes velocity_classes).
  reflexivity.
Defined.

(** ** More on the fall-speed law *)

(** With a [pow] that is not below zero on the bases that are not, the
    fall speed of a diameter that is not below zero is not below zero, and
    so not NaN. *)
Theorem atlas_ulbrich_velocity_never_negative
    (fpow : float -> float -> float) (diameter : float) :
  (forall a : float, (0 <=? a) = true -> (0 <=? fpow a 0.67) = true) ->
  (0 <=? diameter) = true ->
  (0 <=? atlas_ulbrich_velocity fpow diameter) = true.
Proof.
  intros Hpos H0. unfold atlas_ulbrich_velocity.
  assert (Hq : (0 <=? diameter / 10) = true).
  { apply (div_monotone 10 0 diameter _ _ eq_refl); [reflexivity | exact H0]. }
  apply (mul_monotone 17.67 0 (fpow (diameter / 10) 0.67) _ _ eq_refl);
    [reflexivity | exact (Hpos _ Hq)].
Qed.

(** A diameter of 1 mm. *)
Lemma atlas_ulbrich_velocity_never_negative_witness :
  (0 <=? atlas_ulbrich_velocity pow_one 1) = true.
Proof.
  apply (atlas_ulbrich_velocity_never_negative pow_one 1).
  - intros a Ha. exact Ha.
  - reflexivity.
Defined.

(** ** The annual cycles *)

Lemma months_between_in (lo hi m : Z) :
  In m (Annual.months_between lo hi) <-> (lo <= m <= hi)%Z.
Proof.
  unfold Annual.months_between. rewrite in_map_iff. split.
  - intros [i [<- Hi]]. apply in_seq in Hi. lia.
  - intros H. exists (Z.to_nat (m - lo)). split; [lia|]. apply in_seq. lia.
Qed.

Lemma months_between_consecutive (lo hi : Z) :
  consecutive (Annual.months_between lo hi).
Proof.
  unfold consecutive, Annual.months_between. intros i a b.
  rewrite !nth_error_map, !nth_error_seq.
  destruct (i <? _)%nat; [|discriminate].
  destruct (S i <? _)%nat; [|discriminate].
  cbn. intros [= <-] [= <-]. lia.
Qed.

Section AnnualCycles.

Variable month_index : Z -> Z.
Variable fsum : list float -> float.

Lemma resample_month_sum_months (s : list (Z * float)) :
  (forall e, In e s ->
     In (month_index (fst e))
        (map fst (Annual.resample_month_sum month_index fsum s))) /\
  consecutive (map fst (Annual.resample_month_sum month_index fsum s)).
Proof.
  unfold Annual.resample_month_sum.
  destruct (map (fun e => month_index (fst e)) s) as [|m0 ms] eqn:E.
  - split; [|intros [|i] a b; discriminate].
    intros e He. apply (in_map (fun e => month_index (fst e))) in He.
    rewrite E in He. contradiction.
  - rewrite map_map. cbn [fst]. rewrite map_id. split.
    + intros e He. apply (in_map (fun e => month_index (fst e))) in He.
      rewrite E in He. apply months_between_in.
      destruct (fold_min_spec ms m0) as [_ [Hlo Hlos]].
      destruct (fold_max_spec ms m0) as [_ [Hhi His]].
      rewrite Forall_forall in Hlos, His.
      destruct He as [<-|He]; [lia|].
      split; [now apply Hlos | now apply His].
    + apply months_between_consecutive.
Qed.

Lemma present_all_nan (vals : list float) :
  (forall x, In x vals -> is_nan x = true) -> Annual.present vals = [].
Proof.
  intros H. unfold Annual.present. apply filter_none.
  intros x Hx. now rewrite (H x Hx).
Qed.

Lemma resample_month_sum_in (s : list (Z * float)) (m : Z) (x : float) :
  In (m, x) (Annual.resample_month_sum month_index fsum s) ->
  x = Annual.sum_min_count fsum (Annual.in_month month_index s m).
Proof.
  unfold Annual.resample_month_sum.
  destruct (map (fun e => month_index (fst e)) s) as [|m0 ms];
    [contradiction|].
  rewrite in_map_iff. intros [m' [[= <- <-] _]]. reflexivity.
Qed.

Lemma length_sorted_in_range (l : list Z) (lo hi : Z) :
  StronglySorted Z.lt l -> Forall (fun k => (lo <= k <= hi)%Z) l ->
  (lo <= hi + 1)%Z -> (Z.of_nat (length l) <= hi - lo + 1)%Z.
Proof.
  intros Hs. revert lo. induction Hs as [|a l Hs IH Hall]; intros lo Hr Hlo.
  - cbn. lia.
  - inversion Hr as [|? ? Ha Hl]; subst.
    assert (H : (Z.of_nat (length l) <= hi - (a + 1) + 1)%Z).
    { apply IH; [|lia]. rewrite Forall_forall in *. intros k Hk.
      specialize (Hall k Hk). specialize (Hl k Hk). lia. }
    cbn [length]. lia.
Qed.

Lemma month_means_months (monthly : list (Z * float)) :
  let cycle := Annual.month_means fsum monthly in
  StronglySorted Z.lt (map fst cycle) /\
  Forall (fun k => (1 <= k <= 12)%Z) (map fst cycle) /\
  (length cycle <= 12)%nat /\
  (forall m x, In (m, x) monthly ->
               In (Annual.month_number m) (map fst cycle)).
Proof.
  unfold Annual.month_means. rewrite map_map. cbn [fst]. rewrite map_id.
  set (ks := map (fun e => Annual.month_number (fst e)) monthly).
  assert (Hin : forall k, In k (fold_right Pd.insert_key [] ks) <-> In k ks).
  { intros k. induction ks as [|k0 ks IH]; cbn; [reflexivity|].
    rewrite insert_key_in, IH. intuition. }
  assert (Hs : StronglySorted Z.lt (fold_right Pd.insert_key [] ks)).
  { induction ks as [|k0 ks IH]; cbn; [constructor|].
    apply insert_key_sorted, IH. intros k. clear. induction ks as [|k1 ks IH];
      cbn; [reflexivity|]. rewrite insert_key_in, IH. intuition. }
  assert (Hr : Forall (fun k => (1 <= k <= 12)%Z)
                      (fold_right Pd.insert_key [] ks)).
  { apply Forall_forall. intros k Hk. apply Hin in Hk. subst ks.
    apply in_map_iff in Hk. destruct Hk as [e [<- _]].
    unfold Annual.month_number.
    pose proof (Z.mod_pos_bound (fst e) 12 ltac:(lia)). lia. }
  split; [exact Hs|]. split; [exact Hr|]. split.
  - rewrite length_map.
    pose proof (length_sorted_in_range _ 1 12 Hs Hr ltac:(lia)). lia.
  - intros m x Hm. apply Hin. subst ks.
    apply in_map_iff. exists (m, x). split; [reflexivity | exact Hm].
Qed.

(** The monthly series, of the gauge and of the rain rate alike, has a
    bin for the month of every sample, and its months follow one another
    without a gap: a month between the first and the last is there even
    without a sample. *)
Theorem monthly_series_months (r_g R : list (Z * float)) (t : float) :
  let gauge := fst (Annual.Annual_Precipitation_rain_gauge month_index fsum r_g) in
  let rate := fst (Annual.Annual_Precipitation_Cycle month_index fsum R t) in
  ((forall e, In e r_g -> In (month_index (fst e)) (map fst gauge)) /\
   consecutive (map fst gauge)) /\
  ((forall e, In e R -> In (month_index (fst e)) (map fst rate)) /\
   consecutive (map fst rate)).
Proof.
  cbn [Annual.Annual_Precipitation_rain_gauge
       Annual.Annual_Precipitation_Cycle fst].
  split; [apply resample_month_sum_months|].
  destruct (resample_month_sum_months (map (fun e => (fst e, snd e / t)) R))
    as [Hin Hc].
  split; [|exact Hc]. intros e He.
  apply (Hin (fst e, snd e / t)). apply in_map_iff. now exists e.
Qed.

Lemma present_filter_missing (p p' : Z * float -> bool) (l : list (Z * float)) :
  (forall e, In e l -> p e = p' e \/ is_nan (snd e) = true) ->
  Annual.present (map snd (filter p l)) =
  Annual.present (map snd (filter p' l)).
Proof.
  unfold Annual.present. induction l as [|e l IH]; intros H; [reflexivity|].
  assert (IH' := IH (fun e' He' => H e' (or_intror He'))).
  cbn [filter]. destruct (H e (or_introl eq_refl)) as [He|He].
  - rewrite <- He. destruct (p e); cbn [map filter]; now rewrite IH'.
  - destruct (p e), (p' e); cbn [map filter]; rewrite ?He; cbn [negb];
      exact IH'.
Qed.

(** A month all of whose samples are missing, or that has none, is missing
    (NaN) in the monthly series, not zero, and the annual cycle that is
    returned has for its calendar month the mean of the same month of the
    other years: the missing month does not count in it. *)
Theorem month_without_sample_is_missing (r_g : list (Z * float))
    (m : Z) (x : float) :
  In (m, x) (fst (Annual.Annual_Precipitation_rain_gauge month_index fsum r_g)) ->
  (forall e, In e r_g -> month_index (fst e) = m -> is_nan (snd e) = true) ->
  is_nan x = true /\
  In (Annual.month_number m,
      Annual.mean fsum
        (map snd
           (other_years m
              (fst (Annual.Annual_Precipitation_rain_gauge
                      month_index fsum r_g)))))
     (snd (Annual.Annual_Precipitation_rain_gauge month_index fsum r_g)).
Proof.
  cbn [Annual.Annual_Precipitation_rain_gauge fst snd]. intros Hin Hall.
  set (monthly := Annual.resample_month_sum month_index fsum r_g) in *.
  assert (Hnan : forall y, In (m, y) monthly -> is_nan y = true).
  { intros y Hy. apply resample_month_sum_in in Hy. rewrite Hy.
    unfold Annual.sum_min_count.
    rewrite present_all_nan; [reflexivity|].
    intros z Hz. unfold Annual.in_month in Hz. apply in_map_iff in Hz.
    destruct Hz as [e [<- He]]. apply filter_In in He.
    destruct He as [He Hm]. apply Z.eqb_eq in Hm. now apply Hall. }
  split; [exact (Hnan x Hin)|].
  destruct (month_means_months monthly) as (_ & _ & _ & Hkey).
  specialize (Hkey m x Hin). unfold Annual.month_means in Hkey |- *.
  rewrite map_map in Hkey. cbn [fst] in Hkey. rewrite map_id in Hkey.
  apply in_map_iff. exists (Annual.month_number m). split; [|exact Hkey].
  f_equal. unfold Annual.mean, other_years.
  rewrite (present_filter_missing
             (fun e => (Annual.month_number (fst e) =? Annual.month_number m)%Z)
             (fun e => (Annual.month_number (fst e) =? Annual.month_number m)%Z
                       && negb (fst e =? m)%Z)); [reflexivity|].
  intros [m' y] He. cbn [fst snd]. destruct (m' =? m)%Z eqn:Em.
  - right. apply Z.eqb_eq in Em. subst m'. now apply Hnan.
  - left. cbn [negb]. now rewrite andb_true_r.
Qed.

(** The annual cycle, of the gauge and of the rain rate alike, has an
    entry for the calendar month of every monthly bin; its months are
    numbers from 1 to 12 in increasing order, so at most twelve. *)
Theorem annual_cycle_months (r_g R : list (Z * float)) (t : float) :
  let gauge := Annual.Annual_Precipitation_rain_gauge month_index fsum r_g in
  let rate := Annual.Annual_Precipitation_Cycle month_index fsum R t in
  (StronglySorted Z.lt (map fst (snd gauge)) /\
   Forall (fun k => (1 <= k <= 12)%Z) (map fst (snd gauge)) /\
   (length (snd gauge) <= 12)%nat /\
   (forall m x, In (m, x) (fst gauge) ->
                In (Annual.month_number m) (map fst (snd gauge)))) /\
  (StronglySorted Z.lt (map fst (snd rate)) /\
   Forall (fun k => (1 <= k <= 12)%Z) (map fst (snd rate)) /\
   (length (snd rate) <= 12)%nat /\
   (forall m x, In (m, x) (fst rate) ->
                In (Annual.month_number m) (map fst (snd rate)))).
Proof.
  cbn [Annual.Annual_Precipitation_rain_gauge
       Annual.Annual_Precipitation_Cycle fst snd].
  split; apply month_means_months.
Qed.

End AnnualCycles.

(** Samples in a first and in a third month of thirty days, and in the
    second month of the next year: the second month of the first year is
    in the series, and missing, and the cycle has for the second month
    the value of the other year. *)
Lemma month_without_sample_is_missing_witness :
  is_nan nan = true /\
  In (2%Z, 4)
     (snd (Annual.Annual_Precipitation_rain_gauge
             Annual.thirty_day_month nansum
             [(0%Z, 1); ((90000 * minute)%Z, 2); ((570000 * minute)%Z, 4)])).
Proof.
  apply (month_without_sample_is_missing Annual.thirty_day_month nansum
           [(0%Z, 1); ((90000 * minute)%Z, 2); ((570000 * minute)%Z, 4)]
           1%Z nan).
  - vm_compute. right. left. reflexivity.
  - intros e [<-|[<-|[<-|[]]]]; vm_compute; discriminate.
Defined.
